(** * Detection evaluation: matching, accumulation and VOC average precision

    A shallow embedding of [eval.py] (functions [voc_ap], [convert_format],
    [box_2_polygon], [compute_iou], [caluclate_tp_fp], [calculate_ap] and
    [eval_final_results]) and of [PyGameDrawing.draw_bbox_in_pygame], and the
    properties of them that the specification states or the code shows.

    Conventions of the embedding:
    - Python floats are modelled by exact rationals ([Q]); rounding of the
      binary64 arithmetic is not modelled.  Comparisons of floats ([!=], [<],
      [max]) are the comparisons of [Q] ([Qeq_bool], [Qle_bool]), and a
      division raises exactly when the divisor is zero.
    - Python integers are [Z]; list indices and lengths are [nat].
    - A Python exception is a value of [exn]; code that can raise returns a
      [result].
    - [result_stat], the dictionary from IoU threshold to statistics bucket
      that the caller owns and both entry points update in place, is an
      association list; the functions that mutate it return the new
      dictionary next to their outcome.
    - shapely (polygon areas), the two numpy routines whose result is not
      fixed by the code ([argsort] with its default kind, the [float32] cast)
      and pygame's [draw.line] are interfaces, the classes [Shapely], [Numpy]
      and [Pygame]; [np.max] and [np.argmax] are defined.  The areas are
      those of valid polygons: what shapely does with a ring that crosses
      itself is outside the embedding.
    - The [float32] values of [compute_iou] meet the Python float
      [iou_thresh] in [np.max(ious) < iou_thresh]; numpy (version 2) makes
      this comparison in [float32], the threshold cast like the IoU. *)

From Stdlib Require Import QArith Qabs ZArith List Bool Arith Lia Lqa.
From Stdlib Require Import Permutation Sorted.
Import ListNotations.

Set Implicit Arguments.

(** * The embedding *)

(** ** Exceptions and results *)

Inductive exn : Type :=
| ZeroDivisionError
| IndexError
| AssertionError
| KeyError
| ValueError.

Inductive result (A : Type) : Type :=
| Ok (a : A)
| Raise (e : exn).

Arguments Ok {A} a.
Arguments Raise {A} e.

Definition bind {A B : Type} (m : result A) (k : A -> result B) : result B :=
  match m with
  | Ok a => k a
  | Raise e => Raise e
  end.

Notation "x <- m ;; k" := (bind m (fun x => k))
  (at level 61, m at next level, right associativity).
Notation "' p <- m ;; k" := (bind m (fun p => k))
  (at level 61, p pattern, m at next level, right associativity).


(** [[f x for x in l]] where [f] can raise: the first exception wins. *)
Fixpoint mapM {A B : Type} (f : A -> result B) (l : list A) : result (list B) :=
  match l with
  | [] => Ok []
  | x :: l' => y <- f x ;; ys <- mapM f l' ;; Ok (y :: ys)
  end.

(** ** Python lists and numbers *)

(** [l[i]] for a non-negative index. *)
Definition py_get {A : Type} (l : list A) (i : nat) : result A :=
  match nth_error l i with
  | Some x => Ok x
  | None => Raise IndexError
  end.

(** [l[i] = v] for a non-negative index. *)
Fixpoint py_set {A : Type} (l : list A) (i : nat) (v : A) : result (list A) :=
  match l, i with
  | [], _ => Raise IndexError
  | _ :: l', O => Ok (v :: l')
  | x :: l', S i' => l'' <- py_set l' i' v ;; Ok (x :: l'')
  end.

(** [l.pop(i)]: the list without its element of index [i]. *)
Fixpoint py_pop {A : Type} (l : list A) (i : nat) : result (list A) :=
  match l, i with
  | [], _ => Raise IndexError
  | _ :: l', O => Ok l'
  | x :: l', S i' => l'' <- py_pop l' i' ;; Ok (x :: l'')
  end.

(** [l[i] = v] when [i] is known to be an index of [l] (nothing is done
    otherwise). *)
Fixpoint set_nth {A : Type} (l : list A) (i : nat) (v : A) : list A :=
  match l, i with
  | [], _ => []
  | _ :: l', O => v :: l'
  | x :: l', S i' => x :: set_nth l' i' v
  end.

(** [enumerate(l)]. *)
Definition enumerate {A : Type} (l : list A) : list (nat * A) :=
  combine (seq 0 (length l)) l.

(** [a / b] on Python numbers. *)
Definition py_div (a b : Q) : result Q :=
  if Qeq_bool b 0 then Raise ZeroDivisionError else Ok (a / b).

(** [float(n)]. *)
Definition float (n : Z) : Q := inject_Z n.

(** [a < b] on floats. *)
Definition Qltb (a b : Q) : bool := negb (Qle_bool b a).

(** Python's [max(a, b)]: the first argument unless the second is greater. *)
Definition py_max (a b : Q) : Q := if Qltb a b then b else a.

(** ** External libraries *)

(** shapely: [Polygon(points)], and the areas [p.intersection(q).area] and
    [p.union(q).area], which are Python floats, for valid polygons. *)
Class Shapely : Type := {
  polygon : Type;
  Polygon : list (Q * Q) -> polygon;
  intersection_area : polygon -> polygon -> Q;
  union_area : polygon -> polygon -> Q
}.

(** numpy: [np.argsort(a)] with the default kind returns the indices that
    sort [a] in ascending order; the default kind is not a stable sort, so how
    equal keys are ordered is left to the implementation.  [float32] is the
    value of one element under [np.array(_, dtype=np.float32)], and of a
    Python float that is compared with a [float32] scalar. *)
Class Numpy : Type := {
  float32 : Q -> Q;
  argsort : list Q -> list nat;
  argsort_perm : forall a, Permutation (argsort a) (seq 0 (length a));
  argsort_sorted : forall a,
    StronglySorted (fun i j => nth i a 0 <= nth j a 0) (argsort a)
}.

(** [np.max(a)]; numpy raises [ValueError] on an empty array. *)
Fixpoint max_from (m : Q) (a : list Q) : Q :=
  match a with
  | [] => m
  | x :: a' => max_from (py_max m x) a'
  end.

Definition np_max (a : list Q) : result Q :=
  match a with
  | [] => Raise ValueError
  | x :: a' => Ok (max_from x a')
  end.

(** [np.argmax(a)]: the index of the first occurrence of the maximum. *)
Fixpoint argmax_from (best : nat) (m : Q) (i : nat) (a : list Q) : nat :=
  match a with
  | [] => best
  | x :: a' =>
      if Qltb m x then argmax_from i x (S i) a' else argmax_from best m (S i) a'
  end.

Definition np_argmax (a : list Q) : result nat :=
  match a with
  | [] => Raise ValueError
  | x :: a' => Ok (argmax_from 0%nat x 1%nat a')
  end.

(** [a[idx]] with an index array (numpy fancy indexing). *)
Definition take {A : Type} (a : list A) (idx : list nat) : result (list A) :=
  mapM (py_get a) idx.

(** ** [voc_ap] *)

(** [for i in range(len(mpre) - 2, -1, -1): mpre[i] = max(mpre[i], mpre[i + 1])],
    over the indices still to visit. *)
Fixpoint envelope_loop (idxs : list nat) (mpre : list Q) : result (list Q) :=
  match idxs with
  | [] => Ok mpre
  | i :: idxs' =>
      a <- py_get mpre i ;;
      b <- py_get mpre (i + 1) ;;
      mpre' <- py_set mpre i (py_max a b) ;;
      envelope_loop idxs' mpre'
  end.

(** [for i in range(1, len(mrec)): if mrec[i] != mrec[i - 1]: i_list.append(i)].
    The index [i - 1] is never negative here, since [i] starts at 1. *)
Fixpoint changes_loop (idxs : list nat) (mrec : list Q) (i_list : list nat)
  : result (list nat) :=
  match idxs with
  | [] => Ok i_list
  | i :: idxs' =>
      a <- py_get mrec i ;;
      b <- py_get mrec (i - 1) ;;
      if negb (Qeq_bool a b)
      then changes_loop idxs' mrec (i_list ++ [i])
      else changes_loop idxs' mrec i_list
  end.

(** [for i in i_list: ap += ((mrec[i] - mrec[i - 1]) * mpre[i])]. *)
Fixpoint sum_loop (i_list : list nat) (mrec mpre : list Q) (ap : Q) : result Q :=
  match i_list with
  | [] => Ok ap
  | i :: i_list' =>
      a <- py_get mrec i ;;
      b <- py_get mrec (i - 1) ;;
      p <- py_get mpre i ;;
      sum_loop i_list' mrec mpre (ap + (a - b) * p)
  end.

(** [range(n - 1, -1, -1)]. *)
Definition range_down (n : nat) : list nat := rev (seq 0 n).

Definition voc_ap (rec prec : list Q) : result (Q * list Q * list Q) :=
  let rec := 0 :: rec ++ [1] in
  let mrec := rec in
  let prec := 0 :: prec ++ [0] in
  mpre <- envelope_loop (range_down (length prec - 1)) prec ;;
  i_list <- changes_loop (seq 1 (length mrec - 1)) mrec [] ;;
  ap <- sum_loop i_list mrec mpre 0 ;;
  Ok (ap, mrec, mpre).

(** ** The statistics dictionary *)

(** One bucket [result_stat[iou]]: the keys ['score'], ['tp'], ['fp'], ['gt']. *)
Record bucket : Type := {
  stat_score : list Q;
  stat_tp : list Z;
  stat_fp : list Z;
  stat_gt : Z
}.

Definition result_stat : Type := list (Q * bucket).

(** [result_stat[k]]. *)
Fixpoint lookup (rs : result_stat) (k : Q) : result bucket :=
  match rs with
  | [] => Raise KeyError
  | (k', b) :: rs' => if Qeq_bool k k' then Ok b else lookup rs' k
  end.

(** The dictionary after the bucket of key [k] has been modified in place. *)
Fixpoint update (rs : result_stat) (k : Q) (b : bucket) : result_stat :=
  match rs with
  | [] => []
  | (k', b') :: rs' =>
      if Qeq_bool k k' then (k', b) :: rs' else (k', b') :: update rs' k b
  end.

Definition empty_bucket : bucket :=
  {| stat_score := []; stat_tp := []; stat_fp := []; stat_gt := 0 |}.

(** ** [calculate_ap] *)

(** [for idx, val in enumerate(l): l[idx] += cumsum; cumsum += val], over the
    indices still to visit.  [enumerate] reads [l[idx]] when it reaches
    [idx], and yields only indices of [l]. *)
Fixpoint cumsum_loop (idxs : list nat) (l : list Z) (cumsum : Z) : list Z :=
  match idxs with
  | [] => l
  | idx :: idxs' =>
      let val := nth idx l 0%Z in
      cumsum_loop idxs' (set_nth l idx (nth idx l 0 + cumsum)%Z) (cumsum + val)%Z
  end.

Definition cumsum_inplace (l : list Z) : list Z :=
  cumsum_loop (seq 0 (length l)) l 0%Z.

Section Evaluation.

Context {numpy : Numpy}.

(** The lists bound to [fp] and [tp] after the [if global_sort_detections]:
    fresh, reordered copies when sorting globally, the bucket's own lists
    otherwise. *)
Definition select_lists (iou_5 : bucket) (global_sort_detections : bool)
  : result (list Z * list Z) :=
  if global_sort_detections then
    let fp := stat_fp iou_5 in
    let tp := stat_tp iou_5 in
    let score := stat_score iou_5 in
    if (length fp =? length tp)%nat && (length tp =? length score)%nat then
      let sorted_index := argsort (map Qopp score) in
      fp <- take fp sorted_index ;;
      tp <- take tp sorted_index ;;
      Ok (fp, tp)
    else Raise AssertionError
  else
    let fp := stat_fp iou_5 in
    let tp := stat_tp iou_5 in
    if (length fp =? length tp)%nat then Ok (fp, tp) else Raise AssertionError.

(** Lines 166 to 188: recall, precision and [voc_ap] from the accumulated
    lists [fp] and [tp]. *)
Definition curves (fp tp : list Z) (gt_total : Z) : result (Q * list Q * list Q) :=
  rec <- mapM (fun '(idx, val) =>
                 t <- py_get tp idx ;; py_div (float t) (float gt_total))
              (enumerate tp) ;;
  prec <- mapM (fun '(idx, val) =>
                  t <- py_get tp idx ;;
                  f <- py_get fp idx ;;
                  py_div (float t) (float (f + t)))
               (enumerate tp) ;;
  voc_ap rec prec.

(** [calculate_ap(result_stat, iou, global_sort_detections)]: the dictionary
    as the call leaves it, and the value returned or the exception raised.
    Without global sorting [fp] and [tp] are the bucket's lists themselves,
    and the two cumulative-sum loops write into them. *)
Definition calculate_ap (rs : result_stat) (iou : Q)
    (global_sort_detections : bool)
  : result_stat * result (Q * list Q * list Q) :=
  match lookup rs iou with
  | Raise e => (rs, Raise e)
  | Ok iou_5 =>
      match select_lists iou_5 global_sort_detections with
      | Raise e => (rs, Raise e)
      | Ok (fp, tp) =>
          let gt_total := stat_gt iou_5 in
          let fp := cumsum_inplace fp in
          let tp := cumsum_inplace tp in
          let rs' :=
            if global_sort_detections then rs
            else update rs iou
                   {| stat_score := stat_score iou_5;
                      stat_tp := tp;
                      stat_fp := fp;
                      stat_gt := stat_gt iou_5 |} in
          (rs', curves fp tp gt_total)
      end
  end.

End Evaluation.

(** ** [convert_format], [compute_iou] and [caluclate_tp_fp] *)

(** A box is an array of corners, [(4, 2)] or [(8, 3)]: a list of rows. *)
Definition box : Type := list (list Q).

Section Matching.

Context {shapely : Shapely} {numpy : Numpy}.

(** [Polygon([(box[i, 0], box[i, 1]) for i in range(4)])]. *)
Definition box_2_polygon (box_array : box) : result polygon :=
  pts <- mapM (fun i =>
                 row <- py_get box_array i ;;
                 x <- py_get row 0 ;;
                 y <- py_get row 1 ;;
                 Ok (x, y))
              (seq 0 4) ;;
  Ok (Polygon pts).

Definition convert_format (boxes_array : list box) : result (list polygon) :=
  mapM box_2_polygon boxes_array.

Definition compute_iou (box : polygon) (boxes : list polygon) : result (list Q) :=
  iou <- mapM (fun b => py_div (intersection_area box b) (union_area box b))
              boxes ;;
  Ok (map float32 iou).

(** The state of the matching loop: the ground truth not yet claimed and
    the labels given so far. *)
Record loop_state : Type := {
  gt_polygon_list : list polygon;
  fp : list Z;
  tp : list Z
}.

(** One iteration of the loop of lines 112 to 125, for the detection of
    index [k = score_order_descend[i]].  In [np.max(ious) < iou_thresh] the
    left operand is a [float32] scalar and the right one a Python float:
    numpy compares the two in [float32], so the threshold enters the
    comparison as its [float32] value. *)
Definition match_step (det_polygon_list : list polygon) (iou_thresh : Q)
    (st : loop_state) (k : nat) : result loop_state :=
  det_polygon <- py_get det_polygon_list k ;;
  ious <- compute_iou det_polygon (gt_polygon_list st) ;;
  let no_match :=
    Ok {| gt_polygon_list := gt_polygon_list st;
          fp := fp st ++ [1%Z];
          tp := tp st ++ [0%Z] |} in
  if (length (gt_polygon_list st) =? 0)%nat then no_match
  else
    m <- np_max ious ;;
    if Qltb m (float32 iou_thresh) then no_match
    else
      gt_index <- np_argmax ious ;;
      gts <- py_pop (gt_polygon_list st) gt_index ;;
      Ok {| gt_polygon_list := gts;
            fp := fp st ++ [0%Z];
            tp := tp st ++ [1%Z] |}.

(** [for i in range(score_order_descend.shape[0])], over the entries of
    [score_order_descend] still to visit. *)
Fixpoint match_loop (det_polygon_list : list polygon) (iou_thresh : Q)
    (order : list nat) (st : loop_state) : result loop_state :=
  match order with
  | [] => Ok st
  | k :: order' =>
      st' <- match_step det_polygon_list iou_thresh st k ;;
      match_loop det_polygon_list iou_thresh order' st'
  end.

(** What one frame contributes: the values of [fp], [tp], [det_score] (as
    added to the bucket) and [gt] at line 126. *)
Record frame_result : Type := {
  frame_fp : list Z;
  frame_tp : list Z;
  frame_score : list Q;
  frame_gt : Z
}.

(** Lines 100 to 126 of [caluclate_tp_fp]: the labels of the frame, its
    scores in the order in which the detections were visited and its
    ground-truth count.  [det_boxes] is [None] for a frame without
    detections. *)
Definition matcher (det_boxes : option (list box)) (det_score : list Q)
    (gt_boxes : list box) (iou_thresh : Q) : result frame_result :=
  let gt := Z.of_nat (length gt_boxes) in
  match det_boxes with
  | None =>
      Ok {| frame_fp := []; frame_tp := []; frame_score := []; frame_gt := gt |}
  | Some det_boxes =>
      let score_order_descend := argsort (map Qopp det_score) in
      det_score <- take det_score score_order_descend ;;
      det_polygon_list <- convert_format det_boxes ;;
      gt_polygons <- convert_format gt_boxes ;;
      st <- match_loop det_polygon_list iou_thresh score_order_descend
              {| gt_polygon_list := gt_polygons; fp := []; tp := [] |} ;;
      Ok {| frame_fp := fp st; frame_tp := tp st; frame_score := det_score;
            frame_gt := gt |}
  end.

(** Lines 127 to 131: the frame's lists are appended to the bucket's and
    its ground-truth count is added. *)
Definition accumulate (b : bucket) (f : frame_result) : bucket :=
  {| stat_score := stat_score b ++ frame_score f;
     stat_fp := stat_fp b ++ frame_fp f;
     stat_tp := stat_tp b ++ frame_tp f;
     stat_gt := stat_gt b + frame_gt f |}.

(** [caluclate_tp_fp(det_boxes, det_score, gt_boxes, result_stat, iou_thresh)]:
    the dictionary as the call leaves it, and whether it returned or raised. *)
Definition caluclate_tp_fp (det_boxes : option (list box)) (det_score : list Q)
    (gt_boxes : list box) (rs : result_stat) (iou_thresh : Q)
  : result_stat * result unit :=
  match matcher det_boxes det_score gt_boxes iou_thresh with
  | Raise e => (rs, Raise e)
  | Ok f =>
      match lookup rs iou_thresh with
      | Raise e => (rs, Raise e)
      | Ok b => (update rs iou_thresh (accumulate b f), Ok tt)
      end
  end.

End Matching.

(** ** [eval_final_results] *)

(** What [eval_final_results] prints: the values that fill its two format
    strings (the formatting itself is not modelled). *)
Inductive printed : Type :=
| Total_objects (n : Z)
| Average_precision (ap_30 ap_50 ap_70 : Q).

Section FinalResults.

Context {numpy : Numpy}.

(** [eval_final_results(result_stat, global_sort_detections)]: the
    dictionary as the call leaves it, and what was printed or the exception
    raised.  The function returns nothing; [dump_dict] is filled and
    dropped. *)
Definition eval_final_results (rs : result_stat)
    (global_sort_detections : bool) : result_stat * result (list printed) :=
  let (rs, r_30) := calculate_ap rs (30 # 100) global_sort_detections in
  match r_30 with
  | Raise e => (rs, Raise e)
  | Ok (ap_30, mrec_30, mpre_30) =>
      let (rs, r_50) := calculate_ap rs (50 # 100) global_sort_detections in
      match r_50 with
      | Raise e => (rs, Raise e)
      | Ok (ap_50, mrec_50, mpre_50) =>
          let (rs, r_70) := calculate_ap rs (70 # 100) global_sort_detections in
          match r_70 with
          | Raise e => (rs, Raise e)
          | Ok (ap_70, mrec_70, mpre_70) =>
              match lookup rs (3 # 10) with
              | Raise e => (rs, Raise e)
              | Ok b =>
                  (rs, Ok [Total_objects (stat_gt b);
                           Average_precision ap_30 ap_50 ap_70])
              end
          end
      end
  end.

End FinalResults.

(** ** [PyGameDrawing.draw_bbox_in_pygame] *)

(** pygame: a surface, and [pygame.draw.line(surface, color, start_pos,
    end_pos, width)], which draws on the surface or raises.  [astype_int32]
    is the value of one element under numpy's [astype(np.int32)]. *)
Class Pygame : Type := {
  surface : Type;
  pygame_error : Type;
  line : surface -> Z * Z * Z -> list Z -> list Z -> Z ->
         surface + pygame_error;
  astype_int32 : Q -> Z
}.

Section Drawing.

Context {pygame : Pygame}.

(** A drawing call after another: the first error ends the drawing. *)
Definition and_then (m : surface + pygame_error)
    (k : surface -> surface + pygame_error) : surface + pygame_error :=
  match m with
  | inl s => k s
  | inr e => inr e
  end.

(** The body of the loop over [boxes], for one entry.  The rows
    [points[0]] to [points[7]] exist once [points.shape[0] < 8] has been
    ruled out. *)
Definition draw_box (color : Z * Z * Z) (thickness : Z) (s : surface)
    (entry : option box) : surface + pygame_error :=
  match entry with
  | None => inl s
  | Some box =>
      let points := map (map astype_int32) box in
      if (length points <? 8)%nat then inl s
      else
        let p i := nth i points [] in
        let draw i j s := line s color (p i) (p j) thickness in
        and_then (draw 0 1 s) (fun s =>
        and_then (draw 1 2 s) (fun s =>
        and_then (draw 2 3 s) (fun s =>
        and_then (draw 3 0 s) (fun s =>
        and_then (draw 4 5 s) (fun s =>
        and_then (draw 5 6 s) (fun s =>
        and_then (draw 6 7 s) (fun s =>
        and_then (draw 7 4 s) (fun s =>
        and_then (draw 0 4 s) (fun s =>
        and_then (draw 1 5 s) (fun s =>
        and_then (draw 2 6 s) (fun s =>
        draw 3 7 s)))))))))))
  end%nat.

(** [for box in boxes]. *)
Fixpoint draw_boxes (color : Z * Z * Z) (thickness : Z) (s : surface)
    (boxes : list (option box)) : surface + pygame_error :=
  match boxes with
  | [] => inl s
  | entry :: boxes' =>
      and_then (draw_box color thickness s entry)
               (fun s => draw_boxes color thickness s boxes')
  end.

(** [draw_bbox_in_pygame(surface, boxes, color, thickness)]: the surface
    after the call, or pygame's error.  [boxes] is [None] or a list whose
    entries are [None] or arrays of corners. *)
Definition draw_bbox_in_pygame (s : surface)
    (boxes : option (list (option box))) (color : Z * Z * Z) (thickness : Z)
  : surface + pygame_error :=
  match boxes with
  | None => inl s
  | Some boxes =>
      if (length boxes =? 0)%nat then inl s
      else draw_boxes color thickness s boxes
  end.

End Drawing.

(** The default values of [color] and [thickness]. *)
Definition default_color : Z * Z * Z := (0, 255, 0)%Z.
Definition default_thickness : Z := 2.

(** * Definitions for the statements *)

(** ** Envelope, strips and sums *)

(** The envelope, by recursion on the list: each entry is the [max] of
    itself and the envelope entry that follows it. *)
Definition suffix_max_step (x : Q) (acc : list Q) : list Q :=
  match acc with
  | [] => [x]
  | m :: _ => py_max x m :: acc
  end.

Definition suffix_max (l : list Q) : list Q := fold_right suffix_max_step [] l.

(** [v] is a greatest element of [l]. *)
Definition is_max_of (v : Q) (l : list Q) : Prop :=
  In v l /\ Forall (fun p => p <= v) l.

(** [mrec[i] != mrec[i - 1]]. *)
Definition changed (mrec : list Q) (i : nat) : bool :=
  negb (Qeq_bool (nth i mrec 0) (nth (i - 1) mrec 0)).

(** [(mrec[i] - mrec[i - 1]) * mpre[i]]. *)
Definition strip (mrec mpre : list Q) (i : nat) : Q :=
  (nth i mrec 0 - nth (i - 1) mrec 0) * nth i mpre 0.

Definition sumQ (l : list Q) : Q := fold_right Qplus 0 l.

Definition in_unit (x : Q) : Prop := 0 <= x <= 1.

(** Running sums, by recursion on the list. *)
Fixpoint sums_from (c : Z) (l : list Z) : list Z :=
  match l with
  | [] => []
  | x :: l' => (x + c)%Z :: sums_from (c + x)%Z l'
  end.

Definition running_sums (l : list Z) : list Z := sums_from 0%Z l.

(** [sum(l)]. *)
Definition sumZ (l : list Z) : Z := fold_right Z.add 0%Z l.

(** The average precision a call returned, if it returned. *)
Definition returned_ap (r : result (Q * list Q * list Q)) : option Q :=
  match r with
  | Ok (ap, _, _) => Some ap
  | Raise _ => None
  end.

(** ** Order *)

(** [a] is in descending order. *)
Definition descending (a : list Q) : Prop :=
  StronglySorted (fun x y => y <= x) a.

(** The entries of [a] at the indices [idx], in that order. *)
Definition at_indices {A : Type} (d : A) (a : list A) (idx : list nat) : list A :=
  map (fun k => nth k a d) idx.

(** ** Boxes *)

(** The box has four corners, each with an x and a y. *)
Definition well_shaped (b : box) : bool :=
  (4 <=? length b)%nat &&
  forallb (fun row => (2 <=? length row)%nat) (firstn 4 b).

(** The x and y of the first four corners. *)
Definition corners (b : box) : list (Q * Q) :=
  map (fun row => (nth 0 row 0, nth 1 row 0)) (firstn 4 b).

(** The [(4, 2)] array of the x and y of the first four corners. *)
Definition footprint (b : box) : box := map (firstn 2) (firstn 4 b).

(** ** The matching rule *)

Section Rule.

Context {shapely : Shapely} {numpy : Numpy}.

(** The IoU of two polygons as [compute_iou] returns it, when their union
    has an area. *)
Definition iou (box b : polygon) : Q :=
  float32 (intersection_area box b / union_area box b).

(** Some candidate has a union of area zero with [box]. *)
Definition zero_union (box : polygon) (boxes : list polygon) : bool :=
  existsb (fun b => Qeq_bool (union_area box b) 0) boxes.

(** The ground-plane polygon of a box: the polygon of the x and y of its
    first four corners. *)
Definition ground_polygon (b : box) : polygon := Polygon (corners b).

(** The matching rule in the specification's words.
    [greedy_step th d G t f G']:
    for the detection [d] and the ground truth [G] still unclaimed, the
    label is false positive ([t = 0], [f = 1], [G' = G]) when [G] is empty or
    every IoU is below [th]; otherwise it is true positive ([t = 1],
    [f = 0]) and [G'] is [G] without the box of the lowest index [j] among
    those of greatest IoU. *)
Inductive greedy_step (th : Q) (d : polygon) (G : list polygon)
  : Z -> Z -> list polygon -> Prop :=
| greedy_fp :
    G = [] \/ (forall g, In g G -> iou d g < th) ->
    greedy_step th d G 0 1 G
| greedy_tp (j : nat) (g : polygon) :
    nth_error G j = Some g ->
    th <= iou d g ->
    (forall g', In g' G -> iou d g' <= iou d g) ->
    (forall j' g', (j' < j)%nat -> nth_error G j' = Some g' ->
                   iou d g' < iou d g) ->
    greedy_step th d G 1 0 (firstn j G ++ skipn (S j) G).

(** The rule applied to the detections [ds] one after the other. *)
Inductive greedy_run (th : Q)
  : list polygon -> list polygon -> list Z -> list Z -> list polygon -> Prop :=
| greedy_done (G : list polygon) : greedy_run th [] G [] [] G
| greedy_next (d : polygon) (ds G G1 G' : list polygon) (t f : Z)
    (tps fps : list Z) :
    greedy_step th d G t f G1 ->
    greedy_run th ds G1 tps fps G' ->
    greedy_run th (d :: ds) G (t :: tps) (f :: fps) G'.

(** The frame result [f] comes from the greedy rule: the detections were
    visited in the order [order], a permutation of their indices along which
    the scores descend, and their ground-plane polygons labelled by the rule
    against those of the ground truth, of which [left] was never claimed.
    The IoU and the threshold of the rule are those that are compared: the
    [float32] values of the ratio of the areas and of [th]. *)
Definition matched_greedily (det_boxes : list box) (det_score : list Q)
    (gt_boxes : list box) (th : Q) (f : frame_result) : Prop :=
  exists (order : list nat) (left : list polygon),
    Permutation order (seq 0 (length det_score)) /\
    frame_score f = at_indices 0 det_score order /\
    descending (frame_score f) /\
    greedy_run (float32 th)
      (map (fun k => ground_polygon (nth k det_boxes [])) order)
      (map ground_polygon gt_boxes)
      (frame_tp f) (frame_fp f) left /\
    (Z.of_nat (length left) + sumZ (frame_tp f)
     = Z.of_nat (length gt_boxes))%Z /\
    (gt_boxes = [] ->
     Forall (fun t => t = 0%Z) (frame_tp f) /\
     Forall (fun p => p = 1%Z) (frame_fp f)).

End Rule.

(** ** Frames and buckets *)

(** The arguments of one call of [caluclate_tp_fp]. *)
Record frame : Type := {
  det_boxes : option (list box);
  det_score : list Q;
  gt_boxes : list box;
  iou_thresh : Q
}.

(** The number of detections of a frame: none when [det_boxes] is [None],
    else one per score (well-formed frames have as many boxes as scores). *)
Definition detections (fr : frame) : nat :=
  match det_boxes fr with
  | None => 0%nat
  | Some _ => length (det_score fr)
  end.

(** The invariant of a bucket: three lists of one length, and every
    prediction either true positive or false positive. *)
Definition bucket_inv (b : bucket) : Prop :=
  length (stat_score b) = length (stat_tp b) /\
  length (stat_tp b) = length (stat_fp b) /\
  Forall2 (fun t f => (t + f = 1)%Z) (stat_tp b) (stat_fp b).

Definition stat_inv (rs : result_stat) : Prop :=
  Forall (fun kb => bucket_inv (snd kb)) rs.

Section Frames.

Context {shapely : Shapely} {numpy : Numpy}.

Definition call (rs : result_stat) (fr : frame) : result_stat * result unit :=
  caluclate_tp_fp (det_boxes fr) (det_score fr) (gt_boxes fr) rs (iou_thresh fr).

(** The dictionary after the calls for [frames], one after the other. *)
Definition run_frames (rs : result_stat) (frames : list frame) : result_stat :=
  fold_left (fun rs fr => fst (call rs fr)) frames rs.

End Frames.

(** ** Labels and curves *)

(** A pair of labels: true positive or false positive. *)
Definition flags (t f : Z) : Prop :=
  (t = 1 /\ f = 0)%Z \/ (t = 0 /\ f = 1)%Z.

(** A bucket as the accumulation builds it: one score per label, every
    label pair a pair of flags, and no more true positives than ground-truth
    boxes. *)
Definition bucket_ok (b : bucket) : Prop :=
  length (stat_score b) = length (stat_tp b) /\
  Forall2 flags (stat_tp b) (stat_fp b) /\
  (sumZ (stat_tp b) <= stat_gt b)%Z.

Definition stat_ok (rs : result_stat) : Prop :=
  Forall (fun kb => bucket_ok (snd kb)) rs.

(** The recall and the precision that lines 178 to 184 compute from the
    cumulative lists [tp] and [fp]. *)
Definition recalls (tp : list Z) (gt_total : Z) : list Q :=
  map (fun t => float t / float gt_total) tp.

Definition precisions (fp tp : list Z) : list Q :=
  map (fun '(t, f) => float t / float (f + t)) (combine tp fp).

(** ** The final report *)

(** What is printed for the outcomes [r_30], [r_50], [r_70] of the three
    evaluations and the bucket [total] of key 0.3: the first exception in
    that order, or the two lines. *)
Definition report (r_30 r_50 r_70 : result (Q * list Q * list Q))
    (total : result bucket) : result (list printed) :=
  ' (ap_30, _, _) <- r_30 ;;
  ' (ap_50, _, _) <- r_50 ;;
  ' (ap_70, _, _) <- r_70 ;;
  b <- total ;;
  Ok [Total_objects (stat_gt b); Average_precision ap_30 ap_50 ap_70].

(** ** Drawing *)

(** The entry is a box of at least eight corners. *)
Definition drawable (entry : option box) : bool :=
  match entry with
  | None => false
  | Some b => (8 <=? length b)%nat
  end.

(** The entries of [boxes]; none when it is [None]. *)
Definition entries (boxes : option (list (option box))) : list (option box) :=
  match boxes with
  | None => []
  | Some l => l
  end.

(** The edges of a cuboid, by the indices of their corners: front face,
    back face, and the edges that join the two. *)
Definition cuboid_edges : list (nat * nat) :=
  [(0, 1); (1, 2); (2, 3); (3, 0);
   (4, 5); (5, 6); (6, 7); (7, 4);
   (0, 4); (1, 5); (2, 6); (3, 7)]%nat.

Section Segments.

Context {pygame : Pygame}.

(** The segments of one entry: the edges of the box between its corners
    cast to integers, or none when the entry is not drawable. *)
Definition entry_segments (entry : option box) : list (list Z * list Z) :=
  match entry with
  | None => []
  | Some b =>
      if drawable (Some b)
      then map (fun '(i, j) =>
                  (nth i (map (map astype_int32) b) [],
                   nth j (map (map astype_int32) b) []))
               cuboid_edges
      else []
  end.

Definition segments (l : list (option box)) : list (list Z * list Z) :=
  flat_map entry_segments l.

(** [pygame.draw.line] for the segments one after the other. *)
Fixpoint draw_segments (color : Z * Z * Z) (thickness : Z) (s : surface)
    (segs : list (list Z * list Z)) : surface + pygame_error :=
  match segs with
  | [] => inl s
  | (p, q) :: segs' =>
      and_then (line s color p q thickness)
               (fun s => draw_segments color thickness s segs')
  end.

End Segments.

(** ** Growth *)

(** [b'] is [b] with scores and labels added at the end and a
    ground-truth count that is not smaller. *)
Definition extends (b b' : bucket) : Prop :=
  exists (sc : list Q) (tps fps : list Z) (g : Z),
    stat_score b' = stat_score b ++ sc /\
    stat_tp b' = stat_tp b ++ tps /\
    stat_fp b' = stat_fp b ++ fps /\
    stat_gt b' = (stat_gt b + g)%Z /\ (0 <= g)%Z.

(** ** Instances of the external libraries and example frames *)

(** The geometry of axis-aligned rectangles: a polygon is its list of
    corners, and for polygons that are axis-aligned rectangles the areas are
    those of the rectangles' intersection and union. *)
Module Rect.

Definition min_of (d : Q) (l : list Q) : Q :=
  fold_left (fun m x => if Qltb x m then x else m) l d.

Definition max_of (d : Q) (l : list Q) : Q :=
  fold_left (fun m x => if Qltb m x then x else m) l d.

Definition lo (l : list Q) : Q :=
  match l with [] => 0 | x :: l' => min_of x l' end.

Definition hi (l : list Q) : Q :=
  match l with [] => 0 | x :: l' => max_of x l' end.

Definition pos (x : Q) : Q := if Qltb x 0 then 0 else x.

Definition overlap (a b : list Q) : Q :=
  pos ((if Qltb (hi a) (hi b) then hi a else hi b)
       - (if Qltb (lo a) (lo b) then lo b else lo a)).

Definition area (p : list (Q * Q)) : Q :=
  (hi (map fst p) - lo (map fst p)) * (hi (map snd p) - lo (map snd p)).

Definition inter (p q : list (Q * Q)) : Q :=
  overlap (map fst p) (map fst q) * overlap (map snd p) (map snd q).

Definition union (p q : list (Q * Q)) : Q := area p + area q - inter p q.

(** The box with corners [(x0, y0)] and [(x1, y1)], as a [(4, 2)] array. *)
Definition rect (x0 y0 x1 y1 : Q) : box :=
  [[x0; y0]; [x1; y0]; [x1; y1]; [x0; y1]].

End Rect.

#[export] Instance rect_shapely : Shapely := {|
  polygon := list (Q * Q);
  Polygon := fun pts => pts;
  intersection_area := Rect.inter;
  union_area := Rect.union
|}.

(** Sorting indices by insertion.  [before kj ki] says that an index of key
    [kj] already placed stays in front of the index of key [ki] being
    inserted. *)
Module Insertion.

Section Sort.

Variable before : Q -> Q -> bool.
Variable a : list Q.

Definition key (i : nat) : Q := nth i a 0.

Fixpoint insert (i : nat) (l : list nat) : list nat :=
  match l with
  | [] => [i]
  | j :: l' => if before (key j) (key i) then j :: insert i l' else i :: l
  end.

Definition sort_indices : list nat :=
  fold_right insert [] (seq 0 (length a)).

End Sort.

End Insertion.

(** The cast to [float32]: the nearest binary32 number, the one of even
    significand of two at equal distance.  Numbers beyond the range of
    binary32, which the cast turns into infinities, have no counterpart
    among the rationals and are rounded as if the exponent were unbounded. *)
Module Binary32.

(** The integer nearest to [q], the even one of two at equal distance. *)
Definition nearest_even (q : Q) : Z :=
  let n := Qnum q in
  let d := Z.pos (Qden q) in
  let f := (n / d)%Z in
  match (2 * (n mod d) ?= d)%Z with
  | Lt => f
  | Gt => (f + 1)%Z
  | Eq => if Z.even f then f else (f + 1)%Z
  end.

(** The exponent [e] of a non-zero [q]: [2 ^ e <= |q| < 2 ^ (e + 1)]. *)
Definition exponent (q : Q) : Z :=
  let e := (Z.log2 (Z.abs (Qnum q)) - Z.log2 (Z.pos (Qden q)))%Z in
  if Qle_bool (2 ^ e) (Qabs q) then e else (e - 1)%Z.

(** 24 bits of significand; exponents below -126 share the spacing of
    -126 (subnormal numbers). *)
Definition round (q : Q) : Q :=
  if Qeq_bool q 0 then 0
  else
    let ulp := 2 ^ (Z.max (exponent q) (-126) - 23) in
    inject_Z (nearest_even (q / ulp)) * ulp.

End Binary32.

(** The kernel of [np.argsort] for the default kind on floats, numpy's
    [aquicksort] (npysort): a quicksort on the index array [tosort] that
    partitions around the median of three while a part has more than 17
    entries and sorts shorter parts by insertion.  It is the kernel numpy
    runs where it has no vectorised one for the processor.  The positions
    [pl], [pr], [pi], [pj] are those of the kernel's pointers into
    [tosort]. *)
Module Introsort.

Section Kernel.

(** The keys. *)
Variable v : list Q.

(** [v[tosort[p]]]. *)
Definition key (tosort : list nat) (p : nat) : Q :=
  nth (nth p tosort 0%nat) v 0.

(** [INTP_SWAP(tosort[p], tosort[q])]. *)
Definition swap (tosort : list nat) (p q : nat) : list nat :=
  set_nth (set_nth tosort p (nth q tosort 0%nat)) q (nth p tosort 0%nat).

(** [if (less(v[tosort[p]], v[tosort[q]])) INTP_SWAP(tosort[p], tosort[q])]. *)
Definition swap_if_less (tosort : list nat) (p q : nat) : list nat :=
  if Qltb (key tosort p) (key tosort q) then swap tosort p q else tosort.

(** [do { ++pi; } while (less(v[*pi], vp))]. *)
Fixpoint scan_up (fuel : nat) (tosort : list nat) (vp : Q) (pi : nat) : nat :=
  match fuel with
  | O => S pi
  | S fuel' =>
      if Qltb (key tosort (S pi)) vp then scan_up fuel' tosort vp (S pi)
      else S pi
  end.

(** [do { --pj; } while (less(vp, v[*pj]))]. *)
Fixpoint scan_down (fuel : nat) (tosort : list nat) (vp : Q) (pj : nat) : nat :=
  match fuel with
  | O => pred pj
  | S fuel' =>
      if Qltb vp (key tosort (pred pj)) then scan_down fuel' tosort vp (pred pj)
      else pred pj
  end.

(** The [for (;;)] loop of a partition: scan from both ends, exchange, until
    the scans meet. *)
Fixpoint exchange (fuel : nat) (tosort : list nat) (vp : Q) (pi pj : nat)
  : list nat * nat :=
  match fuel with
  | O => (tosort, pi)
  | S fuel' =>
      let pi := scan_up (length tosort) tosort vp pi in
      let pj := scan_down (length tosort) tosort vp pj in
      if (pj <=? pi)%nat then (tosort, pi)
      else exchange fuel' (swap tosort pi pj) vp pi pj
  end.

(** One partition of [tosort[pl..pr]] around the median of its first,
    middle and last key; the position of the pivot afterwards. *)
Definition partition (tosort : list nat) (pl pr : nat) : list nat * nat :=
  let pm := (pl + (pr - pl) / 2)%nat in
  let tosort := swap_if_less tosort pm pl in
  let tosort := swap_if_less tosort pr pm in
  let tosort := swap_if_less tosort pm pl in
  let vp := key tosort pm in
  let tosort := swap tosort pm (pr - 1) in
  let '(tosort, pi) := exchange (length tosort) tosort vp pl (pr - 1) in
  (swap tosort pi (pr - 1), pi).

(** [while (pj > pl && less(vp, v[*pk])) { *pj-- = *pk--; }]. *)
Fixpoint shift (fuel : nat) (tosort : list nat) (vp : Q) (pl pj : nat)
  : list nat * nat :=
  match fuel with
  | O => (tosort, pj)
  | S fuel' =>
      if (pl <? pj)%nat && Qltb vp (key tosort (pj - 1))
      then shift fuel' (set_nth tosort pj (nth (pj - 1) tosort 0%nat)) vp pl
             (pj - 1)%nat
      else (tosort, pj)
  end.

(** The insertion sort of [tosort[pl..pr]]. *)
Definition insertion (tosort : list nat) (pl pr : nat) : list nat :=
  fold_left
    (fun tosort pi =>
       let vi := nth pi tosort 0%nat in
       let '(tosort, pj) := shift pi tosort (nth vi v 0) pl pi in
       set_nth tosort pj vi)
    (seq (S pl) (pr - pl)) tosort.

Definition SMALL_QUICKSORT : nat := 16.

(** The outer loop, with its stack of the parts still to sort.  [popped]
    says that [pl], [pr] and [cdepth] come from the stack (or are the
    initial ones): only then is the depth looked at.  Where the depth is
    used up the kernel sorts the part with heapsort, which is not modelled:
    [None]. *)
Fixpoint loop (fuel : nat) (tosort : list nat) (pl pr : nat) (cdepth : Z)
    (stack : list (nat * nat * Z)) (popped : bool) : option (list nat) :=
  match fuel with
  | O => None
  | S fuel' =>
      if popped && (cdepth <? 0)%Z then None
      else if (SMALL_QUICKSORT <? pr - pl)%nat then
        let '(tosort, pi) := partition tosort pl pr in
        let cdepth := (cdepth - 1)%Z in
        if (pi - pl <? pr - pi)%nat
        then loop fuel' tosort pl (pi - 1)%nat cdepth
               ((S pi, pr, cdepth) :: stack) false
        else loop fuel' tosort (S pi) pr cdepth
               ((pl, (pi - 1)%nat, cdepth) :: stack) false
      else
        let tosort := insertion tosort pl pr in
        match stack with
        | [] => Some tosort
        | (pl, pr, cdepth) :: stack => loop fuel' tosort pl pr cdepth stack true
        end
  end.

Definition aquicksort : option (list nat) :=
  let num := length v in
  loop (2 * num + 2)%nat (seq 0 num) 0%nat (num - 1)%nat
       (2 * Z.log2 (Z.of_nat num)) [] true.

(** [r] lists every index of [v] once, keys ascending. *)
Fixpoint ascending (r : list nat) : bool :=
  match r with
  | [] => true
  | i :: r' =>
      match r' with
      | [] => true
      | j :: _ => Qle_bool (nth i v 0) (nth j v 0) && ascending r'
      end
  end.

Definition sorts (r : list nat) : bool :=
  (length r =? length v)%nat &&
  forallb (fun i => existsb (Nat.eqb i) r) (seq 0 (length v)) &&
  ascending r.

(** What [np.argsort(v)] returns: the result of the kernel.  That the
    kernel sorts is checked on its result, not proved; should the check
    fail, or the kernel turn to heapsort, the indices are sorted by
    insertion. *)
Definition argsort : list nat :=
  match aquicksort with
  | Some r => if sorts r then r else Insertion.sort_indices Qltb v
  | None => Insertion.sort_indices Qltb v
  end.

End Kernel.

End Introsort.

(** A frame of eighteen detections whose scores alternate between 0.9 and
    0.5; the detections 2, 4, 10 and 14, all of score 0.9, each lie on a
    ground-truth box of their own and the others on none. *)
Definition on_truth (i : nat) : bool := existsb (Nat.eqb i) [2; 4; 10; 14]%nat.

Definition square (i : nat) (y : Q) : box :=
  let x := inject_Z (10 * Z.of_nat i) in Rect.rect x y (x + 1) (y + 1).

Definition frame_tied : frame := {|
  det_boxes :=
    Some (map (fun i => square i (if on_truth i then 0 else 50)) (seq 0 18));
  det_score := map (fun i => if Nat.even i then 9 # 10 else 1 # 2) (seq 0 18);
  gt_boxes := map (fun i => square i 0) [2; 4; 10; 14]%nat;
  iou_thresh := 1 # 2
|}.

(** The bucket that holds the labels of these detections in input order. *)
Definition bucket_tied : bucket := {|
  stat_score := det_score frame_tied;
  stat_tp := map (fun i => if on_truth i then 1 else 0)%Z (seq 0 18);
  stat_fp := map (fun i => if on_truth i then 0 else 1)%Z (seq 0 18);
  stat_gt := 4
|}.

(** Two frames of a run: three detections against two ground-truth boxes,
    and a frame without detections. *)
Definition frame_a : frame := {|
  det_boxes := Some [Rect.rect 5 5 6 6; Rect.rect 1 0 3 2; Rect.rect 0 0 2 2];
  det_score := [7 # 10; 8 # 10; 9 # 10];
  gt_boxes := [Rect.rect 0 0 2 2; Rect.rect 1 0 3 2];
  iou_thresh := 1 # 2
|}.

Definition frame_b : frame := {|
  det_boxes := None;
  det_score := [];
  gt_boxes := [Rect.rect 0 0 1 1];
  iou_thresh := 1 # 2
|}.

Definition fresh_stat : result_stat :=
  [(3 # 10, empty_bucket); (1 # 2, empty_bucket); (7 # 10, empty_bucket)].

(** * Facts about the embedding *)

(** ** Comparisons *)

Lemma Qltb_true (x y : Q) : Qltb x y = true -> x < y.
Proof.
  unfold Qltb. intros H. apply negb_true_iff in H.
  apply Qnot_le_lt. intros Hle. apply Qle_bool_iff in Hle. congruence.
Qed.

Lemma Qltb_false (x y : Q) : Qltb x y = false -> y <= x.
Proof.
  unfold Qltb. intros H. apply negb_false_iff in H. now apply Qle_bool_iff.
Qed.

Lemma Qltb_lt (x y : Q) : Qltb x y = true <-> x < y.
Proof.
  split; [apply Qltb_true|].
  intros H. unfold Qltb. apply negb_true_iff.
  destruct (Qle_bool y x) eqn:E; [|reflexivity].
  apply Qle_bool_iff in E. exfalso. now apply (Qlt_not_le x y).
Qed.

Lemma Qltb_ge (x y : Q) : Qltb x y = false <-> y <= x.
Proof.
  split; [apply Qltb_false|].
  intros H. unfold Qltb. apply negb_false_iff. now apply Qle_bool_iff.
Qed.

Lemma py_max_cases (a b : Q) :
  (py_max a b = a /\ b <= a) \/ (py_max a b = b /\ a < b).
Proof.
  unfold py_max. destruct (Qltb a b) eqn:E.
  - right. split; [reflexivity|]. now apply Qltb_lt.
  - left. split; [reflexivity|]. now apply Qltb_ge.
Qed.

(** ** Sorting by insertion, and the instances of numpy *)

Module InsertionFacts.
Import Insertion.

Section Sort.

Variable before : Q -> Q -> bool.
Hypothesis before_le : forall x y, before x y = true -> x <= y.
Hypothesis before_ge : forall x y, before x y = false -> y <= x.
Variable a : list Q.

Let ordered (i j : nat) : Prop := nth i a 0 <= nth j a 0.

Lemma insert_perm (i : nat) (l : list nat) :
  Permutation (insert before a i l) (i :: l).
Proof.
  induction l as [|j l IH]; simpl.
  - apply Permutation_refl.
  - destruct (before (key a j) (key a i)).
    + apply perm_trans with (j :: i :: l).
      * now apply perm_skip.
      * apply perm_swap.
    + apply Permutation_refl.
Qed.

Lemma sort_indices_perm :
  Permutation (sort_indices before a) (seq 0 (length a)).
Proof.
  unfold sort_indices.
  induction (seq 0 (length a)) as [|i l IH]; simpl.
  - apply perm_nil.
  - eapply perm_trans; [apply insert_perm|]. now apply perm_skip.
Qed.

Lemma insert_sorted (i : nat) (l : list nat) :
  StronglySorted ordered l -> StronglySorted ordered (insert before a i l).
Proof.
  induction 1 as [|j l Hs IH Hj]; simpl.
  - repeat constructor.
  - destruct (before (key a j) (key a i)) eqn:E.
    + constructor; [exact IH|].
      eapply Permutation_Forall; [apply Permutation_sym, insert_perm|].
      constructor; [now apply before_le | exact Hj].
    + apply before_ge in E.
      constructor; [now constructor|].
      constructor; [exact E|].
      eapply Forall_impl; [|exact Hj].
      intros k Hk. unfold ordered in *. unfold key in E.
      eapply Qle_trans; eassumption.
Qed.

Lemma sort_indices_sorted : StronglySorted ordered (sort_indices before a).
Proof.
  unfold sort_indices.
  induction (seq 0 (length a)) as [|i l IH]; simpl.
  - constructor.
  - now apply insert_sorted.
Qed.

End Sort.

End InsertionFacts.

(** numpy with an [argsort] that keeps equal keys in input order, and no
    rounding in the [float32] cast. *)
#[export] Instance numpy_stable : Numpy := {|
  float32 := fun x => x;
  argsort := Insertion.sort_indices Qltb;
  argsort_perm := InsertionFacts.sort_indices_perm Qltb;
  argsort_sorted :=
    InsertionFacts.sort_indices_sorted Qltb
      (fun x y H => Qlt_le_weak _ _ (Qltb_true x y H))
      Qltb_false
|}.

(** numpy as its portable kernels compute: the [float32] cast rounds to
    binary32 and [argsort] is the quicksort of npysort. *)
Module IntrosortFacts.
Import Introsort.

Section Kernel.

Variable v : list Q.

Let ordered (i j : nat) : Prop := nth i v 0 <= nth j v 0.

Lemma ascending_sorted (r : list nat) :
  ascending v r = true -> StronglySorted ordered r.
Proof.
  intros H. apply Sorted_StronglySorted.
  - intros i j k Hij Hjk. unfold ordered in *. eapply Qle_trans; eassumption.
  - induction r as [|i r IH]; [constructor|].
    cbn [ascending] in H. destruct r as [|j r].
    + repeat constructor.
    + apply andb_true_iff in H as [Hij Hr].
      constructor; [now apply IH|].
      constructor. now apply Qle_bool_iff.
Qed.

Lemma sorts_perm (r : list nat) :
  sorts v r = true -> Permutation r (seq 0 (length v)).
Proof.
  unfold sorts. intros H.
  apply andb_true_iff in H as [H _]. apply andb_true_iff in H as [Hlen Hall].
  apply Nat.eqb_eq in Hlen. apply Permutation_sym.
  apply NoDup_Permutation_bis.
  - apply seq_NoDup.
  - rewrite length_seq. lia.
  - intros i Hi. rewrite forallb_forall in Hall.
    apply Hall, existsb_exists in Hi as (j & Hj & E).
    apply Nat.eqb_eq in E. now subst.
Qed.

Lemma sorts_sorted (r : list nat) :
  sorts v r = true -> StronglySorted ordered r.
Proof.
  unfold sorts. intros H. apply andb_true_iff in H as [_ H].
  now apply ascending_sorted.
Qed.

Lemma argsort_perm : Permutation (argsort v) (seq 0 (length v)).
Proof.
  unfold argsort.
  destruct (aquicksort v) as [r|];
    [destruct (sorts v r) eqn:E; [now apply sorts_perm|]|];
    apply InsertionFacts.sort_indices_perm.
Qed.

Lemma argsort_sorted : StronglySorted ordered (argsort v).
Proof.
  unfold argsort.
  destruct (aquicksort v) as [r|];
    [destruct (sorts v r) eqn:E; [now apply sorts_sorted|]|];
    apply InsertionFacts.sort_indices_sorted;
    solve [ intros x y H; apply Qlt_le_weak; now apply Qltb_true
          | apply Qltb_false ].
Qed.

End Kernel.

End IntrosortFacts.

Definition numpy_portable : Numpy := {|
  float32 := Binary32.round;
  argsort := Introsort.argsort;
  argsort_perm := IntrosortFacts.argsort_perm;
  argsort_sorted := IntrosortFacts.argsort_sorted
|}.

(** ** Lists and results *)

Lemma py_get_nth {A : Type} (l : list A) (i : nat) (d : A) :
  (i < length l)%nat -> py_get l i = Ok (nth i l d).
Proof.
  intros H. unfold py_get.
  now rewrite (nth_error_nth' l d H).
Qed.


Lemma py_get_ok_lt {A : Type} (l : list A) (i : nat) (x : A) :
  py_get l i = Ok x -> (i < length l)%nat /\ nth_error l i = Some x.
Proof.
  unfold py_get. destruct (nth_error l i) eqn:E; [|discriminate].
  intros [= <-]. split; [|reflexivity].
  apply nth_error_Some. congruence.
Qed.



Lemma py_set_ok {A : Type} (l : list A) (i : nat) (v : A) :
  (i < length l)%nat -> py_set l i v = Ok (set_nth l i v).
Proof.
  revert i. induction l as [|x l IH]; intros [|i] H; simpl in *; try lia.
  - reflexivity.
  - rewrite IH by lia. reflexivity.
Qed.

Lemma py_pop_ok {A : Type} (l : list A) (j : nat) :
  (j < length l)%nat -> py_pop l j = Ok (firstn j l ++ skipn (S j) l).
Proof.
  revert j. induction l as [|x l IH]; intros [|j] H; simpl in *; try lia.
  - reflexivity.
  - rewrite IH by lia. reflexivity.
Qed.

Lemma set_nth_app {A : Type} (pre suf : list A) (x v : A) :
  set_nth (pre ++ x :: suf) (length pre) v = pre ++ v :: suf.
Proof.
  induction pre as [|y pre IH]; simpl; [reflexivity|]. now rewrite IH.
Qed.

Lemma nth_middle' {A : Type} (pre suf : list A) (x d : A) :
  nth (length pre) (pre ++ x :: suf) d = x.
Proof.
  induction pre as [|y pre IH]; simpl; auto.
Qed.

Lemma in_skipn {A : Type} (x : A) (n : nat) (l : list A) :
  In x (skipn n l) -> In x l.
Proof.
  intros H. rewrite <- (firstn_skipn n l). apply in_or_app. now right.
Qed.

Lemma in_firstn {A : Type} (x : A) (n : nat) (l : list A) :
  In x (firstn n l) -> In x l.
Proof.
  intros H. rewrite <- (firstn_skipn n l). apply in_or_app. now left.
Qed.

Lemma bind_ok {A B : Type} (m : result A) (k : A -> result B) (b : B) :
  bind m k = Ok b -> exists a, m = Ok a /\ k a = Ok b.
Proof.
  destruct m as [a|e]; simpl; [|discriminate]. intros H. now exists a.
Qed.

Lemma mapM_ok_length {A B : Type} (f : A -> result B) (l : list A) (r : list B) :
  mapM f l = Ok r -> length r = length l.
Proof.
  revert r. induction l as [|x l IH]; simpl; intros r H.
  - now inversion H.
  - apply bind_ok in H as (y & _ & H).
    apply bind_ok in H as (ys & Hys & H).
    inversion H; subst. simpl. f_equal. now apply IH.
Qed.

Lemma mapM_total {A B : Type} (f : A -> result B) (g : A -> B) (l : list A) :
  (forall x, In x l -> f x = Ok (g x)) -> mapM f l = Ok (map g l).
Proof.
  induction l as [|x l IH]; simpl; intros H; [reflexivity|].
  rewrite (H x) by now left. simpl.
  rewrite IH by (intros y Hy; apply H; now right). reflexivity.
Qed.



Lemma take_ok {A : Type} (a : list A) (idx : list nat) (d : A) :
  Forall (fun i => (i < length a)%nat) idx ->
  take a idx = Ok (map (fun i => nth i a d) idx).
Proof.
  intros H. unfold take. apply mapM_total.
  intros i Hi. apply py_get_nth.
  now apply (proj1 (Forall_forall _ _) H).
Qed.

(** ** [np.max] and [np.argmax] *)

Lemma argmax_from_spec (a : list Q) :
  forall (pre : list Q) (best : nat) (m : Q),
    (best < length pre)%nat ->
    nth best (pre ++ a) 0 = m ->
    (forall k, (k < length pre)%nat -> nth k (pre ++ a) 0 <= m) ->
    (forall k, (k < best)%nat -> nth k (pre ++ a) 0 < m) ->
    let j := argmax_from best m (length pre) a in
    max_from m a = nth j (pre ++ a) 0 /\
    (j < length (pre ++ a))%nat /\
    (forall k, (k < length (pre ++ a))%nat ->
       nth k (pre ++ a) 0 <= nth j (pre ++ a) 0) /\
    (forall k, (k < j)%nat -> nth k (pre ++ a) 0 < nth j (pre ++ a) 0).
Proof.
  induction a as [|x a IH]; intros pre best m Hb Hm Hle Hlt.
  - cbn [argmax_from max_from]. rewrite app_nil_r in *.
    rewrite Hm. repeat split; auto.
  - cbn [argmax_from max_from]. unfold py_max.
    assert (Hx : nth (length pre) (pre ++ x :: a) 0 = x) by apply nth_middle'.
    assert (Happ : pre ++ x :: a = (pre ++ [x]) ++ a)
      by (rewrite <- app_assoc; reflexivity).
    assert (Hlen : length (pre ++ [x]) = S (length pre))
      by (rewrite length_app; simpl; lia).
    destruct (Qltb m x) eqn:E.
    + apply Qltb_lt in E.
      specialize (IH (pre ++ [x]) (length pre) x).
      rewrite Hlen, <- Happ in IH. apply IH; auto.
      * intros k Hk. destruct (Nat.eq_dec k (length pre)) as [->|Hne].
        -- rewrite Hx. apply Qle_refl.
        -- apply Qle_trans with m; [apply Hle; lia|now apply Qlt_le_weak].
      * intros k Hk. apply Qle_lt_trans with m; [now apply Hle|exact E].
    + apply Qltb_ge in E.
      specialize (IH (pre ++ [x]) best m).
      rewrite Hlen, <- Happ in IH. apply IH; auto.
      intros k Hk. destruct (Nat.eq_dec k (length pre)) as [->|Hne].
      * now rewrite Hx.
      * apply Hle. lia.
Qed.

(** [np.argmax] returns the first index that holds the greatest entry, and
    [np.max] that entry. *)
Lemma np_argmax_spec (a : list Q) :
  a <> [] ->
  exists j,
    np_argmax a = Ok j /\
    np_max a = Ok (nth j a 0) /\
    (j < length a)%nat /\
    (forall k, (k < length a)%nat -> nth k a 0 <= nth j a 0) /\
    (forall k, (k < j)%nat -> nth k a 0 < nth j a 0).
Proof.
  destruct a as [|x a]; [congruence|]. intros _.
  destruct (@argmax_from_spec a [x] 0%nat x) as (Hmax & Hj & Hle & Hlt).
  - simpl. lia.
  - reflexivity.
  - intros k Hk. simpl in Hk. replace k with 0%nat by lia. apply Qle_refl.
  - intros k Hk. lia.
  - exists (argmax_from 0 x 1 a). cbn [np_argmax np_max].
    rewrite Hmax. repeat split; auto.
Qed.

(** ** Sorting by score *)

Lemma StronglySorted_impl {A : Type} (R R' : A -> A -> Prop) (l : list A) :
  (forall x y, R x y -> R' x y) -> StronglySorted R l -> StronglySorted R' l.
Proof.
  intros HR. induction 1 as [|x l Hs IH Hx]; constructor; auto.
  eapply Forall_impl; [|exact Hx]. intros y. apply HR.
Qed.

Lemma StronglySorted_map {A B : Type} (R : B -> B -> Prop) (f : A -> B)
    (l : list A) :
  StronglySorted (fun x y => R (f x) (f y)) l -> StronglySorted R (map f l).
Proof.
  induction 1 as [|x l Hs IH Hx]; simpl; constructor; auto.
  apply Forall_map. exact Hx.
Qed.

Section SortFacts.

Context {numpy : Numpy}.

(** [score[np.argsort(-score)]] is [score] in descending order. *)
Lemma argsort_neg_descending (score : list Q) :
  descending (at_indices 0 score (argsort (map Qopp score))).
Proof.
  unfold descending, at_indices. apply StronglySorted_map.
  eapply StronglySorted_impl; [|apply argsort_sorted].
  intros i j H. cbv beta in H.
  change 0 with (Qopp 0) in H at 1 2. rewrite !map_nth in H. lra.
Qed.

Lemma argsort_neg_perm (score : list Q) :
  Permutation (argsort (map Qopp score)) (seq 0 (length score)).
Proof.
  rewrite <- (length_map Qopp score). apply argsort_perm.
Qed.

Lemma score_order_in_range (det_score : list Q) :
  Forall (fun i => (i < length det_score)%nat) (argsort (map Qopp det_score)).
Proof.
  apply Forall_forall. intros i Hi.
  apply (Permutation_in _ (argsort_neg_perm det_score)) in Hi.
  apply in_seq in Hi. lia.
Qed.

Lemma at_indices_seq {A : Type} (d : A) (a : list A) :
  at_indices d a (seq 0 (length a)) = a.
Proof.
  unfold at_indices. apply nth_ext with (d := d) (d' := d).
  - now rewrite length_map, length_seq.
  - intros n Hn. rewrite length_map, length_seq in Hn.
    rewrite (nth_indep _ d (nth 0 a d)) by (now rewrite length_map, length_seq).
    change (nth 0 a d) with ((fun k => nth k a d) 0%nat).
    rewrite map_nth, seq_nth by exact Hn. reflexivity.
Qed.

(** Reordering by [np.argsort] keeps the entries. *)
Lemma at_indices_argsort_perm {A : Type} (d : A) (a : list A) (score : list Q) :
  length a = length score ->
  Permutation (at_indices d a (argsort (map Qopp score))) a.
Proof.
  intros Hlen. rewrite <- (at_indices_seq d a) at 2. rewrite Hlen.
  unfold at_indices. apply Permutation_map, argsort_neg_perm.
Qed.

End SortFacts.

(** ** The loops of [voc_ap] *)

(** One read [l[i]] of a loop body, at an index within [l]. *)
Ltac read_in_range :=
  rewrite (py_get_nth _ 0) by (try rewrite length_app; simpl; lia);
  cbn [bind].

Lemma range_down_S (n : nat) : range_down (S n) = n :: range_down n.
Proof.
  unfold range_down. rewrite seq_S, rev_app_distr. reflexivity.
Qed.

Lemma envelope_loop_app (pre : list Q) :
  forall (m : Q) (s : list Q),
    envelope_loop (range_down (length pre)) (pre ++ m :: s)
    = Ok (fold_right suffix_max_step (m :: s) pre).
Proof.
  induction pre as [|x pre IH] using rev_ind; intros m s.
  - reflexivity.
  - rewrite length_app, Nat.add_comm. simpl length. simpl Nat.add.
    rewrite range_down_S, <- app_assoc. simpl app.
    cbn [envelope_loop].
    rewrite (py_get_nth _ 0) by (rewrite length_app; simpl; lia).
    rewrite nth_middle'. cbn [bind].
    rewrite (py_get_nth _ 0) by (rewrite length_app; simpl; lia).
    replace (length pre + 1)%nat with (length (pre ++ [x])) by
      (rewrite length_app; reflexivity).
    replace (pre ++ x :: m :: s) with ((pre ++ [x]) ++ m :: s) at 1 by
      (rewrite <- app_assoc; reflexivity).
    rewrite nth_middle'. cbn [bind].
    rewrite py_set_ok by (rewrite length_app; simpl; lia).
    rewrite set_nth_app. cbn [bind].
    rewrite IH, fold_right_app. reflexivity.
Qed.

Lemma envelope_loop_sentinels (prec : list Q) :
  envelope_loop (range_down (length (0%Q :: prec ++ [0%Q]) - 1))
                (0 :: prec ++ [0])
  = Ok (suffix_max (0 :: prec ++ [0])).
Proof.
  change (0 :: prec ++ [0]) with ((0 :: prec) ++ [0]).
  replace (length ((0%Q :: prec) ++ [0%Q]) - 1)%nat with (length (0 :: prec)) by
    (rewrite length_app; simpl; lia).
  rewrite envelope_loop_app. unfold suffix_max.
  rewrite fold_right_app. reflexivity.
Qed.

Lemma suffix_max_length (l : list Q) : length (suffix_max l) = length l.
Proof.
  induction l as [|x l IH]; [reflexivity|].
  unfold suffix_max in *. simpl.
  destruct (fold_right suffix_max_step [] l); simpl in *; lia.
Qed.

Lemma suffix_max_is_max (l : list Q) (i : nat) :
  (i < length l)%nat -> is_max_of (nth i (suffix_max l) 0) (skipn i l).
Proof.
  revert i. induction l as [|x l IH]; intros i Hi; simpl in Hi; [lia|].
  pose proof (suffix_max_length l) as Hlen.
  unfold suffix_max in *. cbn [fold_right].
  destruct i as [|i].
  - cbn [skipn].
    destruct (fold_right suffix_max_step [] l) as [|m r] eqn:E.
    + destruct l; [|discriminate]. split; [now left|].
      constructor; [apply Qle_refl|constructor].
    + assert (H0 : (0 < length l)%nat) by (rewrite <- Hlen; simpl; lia).
      specialize (IH 0%nat H0). cbn [nth skipn] in IH.
      destruct IH as [Hin Hall]. cbn [suffix_max_step nth].
      destruct (py_max_cases x m) as [[-> Hle]|[-> Hlt]].
      * split; [now left|]. constructor; [apply Qle_refl|].
        eapply Forall_impl; [|exact Hall]. intros p Hp. cbv beta in Hp.
        now apply Qle_trans with m.
      * split; [now right|]. constructor; [now apply Qlt_le_weak|exact Hall].
  - cbn [skipn].
    destruct (fold_right suffix_max_step [] l) as [|m r] eqn:E.
    + simpl in Hlen. lia.
    + cbn [suffix_max_step nth]. apply IH. lia.
Qed.

Lemma changes_loop_filter (mrec : list Q) (idxs : list nat) :
  forall acc,
    Forall (fun i => (1 <= i < length mrec)%nat) idxs ->
    changes_loop idxs mrec acc = Ok (acc ++ filter (changed mrec) idxs).
Proof.
  induction idxs as [|i idxs IH]; intros acc H; simpl.
  - now rewrite app_nil_r.
  - inversion H as [|? ? Hi Hrest]; subst.
    do 2 read_in_range. unfold changed at 1.
    destruct (negb (Qeq_bool (nth i mrec 0) (nth (i - 1) mrec 0))).
    + rewrite IH by assumption. rewrite <- app_assoc. reflexivity.
    + now apply IH.
Qed.

Lemma sum_loop_fold (mrec mpre : list Q) (i_list : list nat) :
  forall ap,
    Forall (fun i => (1 <= i < length mrec)%nat /\ (i < length mpre)%nat) i_list ->
    sum_loop i_list mrec mpre ap
    = Ok (fold_left (fun ap i => ap + strip mrec mpre i) i_list ap).
Proof.
  induction i_list as [|i l IH]; intros ap H; simpl; [reflexivity|].
  inversion H as [|? ? [Hi Hi'] Hrest]; subst.
  do 3 read_in_range. now apply IH.
Qed.

Lemma fold_left_sumQ (f : nat -> Q) (l : list nat) :
  forall ap, fold_left (fun ap i => ap + f i) l ap == ap + sumQ (map f l).
Proof.
  induction l as [|i l IH]; intros ap; simpl.
  - unfold sumQ. simpl. lra.
  - rewrite IH. unfold sumQ. simpl. lra.
Qed.

Lemma voc_ap_eq (rec prec : list Q) :
  (length rec <= length prec)%nat ->
  let mrec := 0 :: rec ++ [1] in
  let mpre := suffix_max (0 :: prec ++ [0]) in
  voc_ap rec prec
  = Ok (fold_left (fun ap i => ap + strip mrec mpre i)
                  (filter (changed mrec) (seq 1 (length rec + 1))) 0,
        mrec, mpre).
Proof.
  intros Hlen mrec mpre. unfold voc_ap.
  rewrite envelope_loop_sentinels. cbn [bind].
  assert (Hm : length mrec = (length rec + 2)%nat)
    by (unfold mrec; simpl; rewrite length_app; simpl; lia).
  assert (Hp : length mpre = (length prec + 2)%nat)
    by (unfold mpre; rewrite suffix_max_length; simpl; rewrite length_app;
        simpl; lia).
  fold mrec. fold mpre.
  replace (length mrec - 1)%nat with (length rec + 1)%nat by lia.
  assert (Hidx : Forall (fun i => (1 <= i < length mrec)%nat)
                        (seq 1 (length rec + 1))).
  { apply Forall_forall. intros i Hi. apply in_seq in Hi. lia. }
  rewrite changes_loop_filter by exact Hidx. cbn [bind app].
  rewrite sum_loop_fold; [reflexivity|].
  apply Forall_forall. intros i Hi. apply filter_In in Hi as [Hi _].
  apply in_seq in Hi. lia.
Qed.

Lemma sumQ_app (l1 l2 : list Q) : sumQ (l1 ++ l2) == sumQ l1 + sumQ l2.
Proof.
  unfold sumQ. induction l1 as [|x l1 IH]; simpl; [lra|]. rewrite IH. lra.
Qed.

(** The strips of a non-decreasing [mrec] under an envelope within
    [[0, 1]] add up to at most the recall covered. *)
Lemma strips_bound (mrec mpre : list Q) (n : nat) :
  (forall i, (1 <= i <= n)%nat -> nth (i - 1) mrec 0 <= nth i mrec 0) ->
  (forall i, (1 <= i <= n)%nat -> in_unit (nth i mpre 0)) ->
  0 <= sumQ (map (strip mrec mpre) (filter (changed mrec) (seq 1 n)))
    <= nth n mrec 0 - nth 0 mrec 0.
Proof.
  induction n as [|n IH]; intros Hmono Hunit.
  - unfold sumQ. simpl. lra.
  - rewrite seq_S, filter_app, map_app, sumQ_app.
    assert (IH' := IH (fun i Hi => Hmono i ltac:(lia))
                      (fun i Hi => Hunit i ltac:(lia))).
    clear IH.
    assert (Hd := Hmono (S n) ltac:(lia)).
    assert (Hu := Hunit (S n) ltac:(lia)). unfold in_unit in Hu.
    replace (S n - 1)%nat with n in Hd by lia.
    replace (1 + n)%nat with (S n) by lia.
    cbn [filter map].
    set (a := nth (S n) mrec 0) in *. set (b := nth n mrec 0) in *.
    set (c := nth 0 mrec 0) in *.
    set (s := sumQ (map (strip mrec mpre) (filter (changed mrec) (seq 1 n)))) in *.
    destruct (changed mrec (S n)); cbn [map].
    + unfold strip. replace (S n - 1)%nat with n by lia.
      fold a. fold b. set (p := nth (S n) mpre 0) in *.
      clearbody a b c s p. unfold sumQ. cbn [fold_right].
      assert (0 <= (a - b) * p) by (apply Qmult_le_0_compat; lra).
      assert ((a - b) * p <= a - b) by nra.
      lra.
    + clearbody a b c s. unfold sumQ. cbn [fold_right]. lra.
Qed.

(** The strips under a descending envelope within [[0, 1]], for recall
    values within [[0, 1]] in any order: by summation by parts the sum up to
    [n] exceeds [mrec[n] * mpre[n]] by at most [1 - mpre[n]]. *)
Lemma strips_by_parts (mrec mpre : list Q) (n : nat) :
  nth 0 mrec 0 == 0 ->
  (forall i, (i <= n)%nat -> in_unit (nth i mrec 0)) ->
  (forall i, (i <= n)%nat -> in_unit (nth i mpre 0)) ->
  (forall i, (i < n)%nat -> nth (S i) mpre 0 <= nth i mpre 0) ->
  0 <= sumQ (map (strip mrec mpre) (filter (changed mrec) (seq 1 n)))
       - nth n mrec 0 * nth n mpre 0
    <= 1 - nth n mpre 0.
Proof.
  intros H0. induction n as [|n IH]; intros Hr Hp Hd.
  - destruct (Hp 0%nat (Nat.le_refl _)) as [Hp0 Hp1].
    unfold sumQ. cbn [seq filter map fold_right].
    set (r := nth 0 mrec 0) in *. set (q := nth 0 mpre 0) in *.
    clearbody r q. rewrite H0. lra.
  - rewrite seq_S, filter_app, map_app, sumQ_app.
    assert (IH' := IH (fun i Hi => Hr i ltac:(lia))
                      (fun i Hi => Hp i ltac:(lia))
                      (fun i Hi => Hd i ltac:(lia))).
    clear IH.
    destruct (Hr n ltac:(lia)) as [Hrn0 Hrn1].
    destruct (Hp (S n) ltac:(lia)) as [Hq0 Hq1].
    assert (Hdn := Hd n ltac:(lia)).
    replace (1 + n)%nat with (S n) by lia.
    cbn [filter].
    assert (Ht : sumQ (map (strip mrec mpre)
                         (if changed mrec (S n) then [S n] else []))
                 == (nth (S n) mrec 0 - nth n mrec 0) * nth (S n) mpre 0).
    { unfold changed. replace (S n - 1)%nat with n by lia.
      destruct (Qeq_bool (nth (S n) mrec 0) (nth n mrec 0)) eqn:E;
        cbn [negb map]; unfold sumQ, strip; cbn [fold_right];
        replace (S n - 1)%nat with n by lia.
      - apply Qeq_bool_iff in E. rewrite E. ring.
      - ring. }
    rewrite Ht.
    set (a := nth (S n) mrec 0) in *. set (b := nth n mrec 0) in *.
    set (q := nth (S n) mpre 0) in *. set (q' := nth n mpre 0) in *.
    set (s := sumQ (map (strip mrec mpre) (filter (changed mrec) (seq 1 n)))) in *.
    clearbody a b q q' s. nra.
Qed.

Lemma sorted_nth_le (l : list Q) :
  StronglySorted Qle l ->
  forall i j, (i <= j < length l)%nat -> nth i l 0 <= nth j l 0.
Proof.
  induction 1 as [|x l Hs IH Hx]; intros i j Hij; simpl in Hij; [lia|].
  destruct i as [|i], j as [|j]; simpl; try lia.
  - apply Qle_refl.
  - apply (proj1 (Forall_forall _ _) Hx). apply nth_In. lia.
  - apply IH. lia.
Qed.

Lemma sentinels_sorted (rec : list Q) :
  StronglySorted Qle rec -> Forall in_unit rec ->
  StronglySorted Qle (0 :: rec ++ [1]).
Proof.
  intros Hs Hu. constructor.
  - induction Hs as [|x l Hs IH Hx]; simpl.
    + repeat constructor.
    + inversion Hu as [|? ? [_ Hx1] Hu']; subst.
      constructor; [now apply IH|].
      apply Forall_app. split; [exact Hx|]. now constructor.
  - apply Forall_app. split.
    + eapply Forall_impl; [|exact Hu]. now intros p [Hp _].
    + constructor; [lra|constructor].
Qed.

Lemma envelope_in_unit (prec : list Q) (i : nat) :
  Forall in_unit prec ->
  (i < length (0%Q :: prec ++ [0%Q]))%nat ->
  in_unit (nth i (suffix_max (0 :: prec ++ [0])) 0).
Proof.
  intros Hu Hi.
  destruct (suffix_max_is_max (0 :: prec ++ [0]) Hi) as [Hin _].
  apply in_skipn in Hin.
  assert (Hall : Forall in_unit (0 :: prec ++ [0])).
  { constructor; [unfold in_unit; lra|].
    apply Forall_app. split; [exact Hu|].
    constructor; [unfold in_unit; lra|constructor]. }
  exact (proj1 (Forall_forall _ _) Hall _ Hin).
Qed.

(** ** The loops of [calculate_ap] *)

Lemma cumsum_loop_app (suf : list Z) :
  forall (pre : list Z) (c : Z),
    cumsum_loop (seq (length pre) (length suf)) (pre ++ suf) c
    = pre ++ sums_from c suf.
Proof.
  induction suf as [|x suf IH]; intros pre c; [reflexivity|].
  cbn [length seq cumsum_loop sums_from].
  rewrite nth_middle', set_nth_app.
  replace (S (length pre)) with (length (pre ++ [(x + c)%Z]))
    by (rewrite length_app; simpl; lia).
  replace (pre ++ (x + c)%Z :: suf) with ((pre ++ [(x + c)%Z]) ++ suf)
    by (rewrite <- app_assoc; reflexivity).
  rewrite IH, <- app_assoc. reflexivity.
Qed.

Lemma cumsum_inplace_sums (l : list Z) : cumsum_inplace l = running_sums l.
Proof.
  unfold cumsum_inplace. exact (cumsum_loop_app l [] 0%Z).
Qed.

Lemma sums_from_length (l : list Z) : forall c, length (sums_from c l) = length l.
Proof.
  induction l as [|x l IH]; intros c; simpl; [reflexivity|]. now rewrite IH.
Qed.

Lemma cumsum_inplace_length (l : list Z) : length (cumsum_inplace l) = length l.
Proof.
  rewrite cumsum_inplace_sums. apply sums_from_length.
Qed.

Section EvaluationFacts.

Context {numpy : Numpy}.

(** The lists that [calculate_ap] works on have the length of the bucket's,
    whenever the assertions pass. *)
Lemma select_lists_ok (b : bucket) (gs : bool) :
  length (stat_fp b) = length (stat_tp b) ->
  length (stat_tp b) = length (stat_score b) ->
  exists fp tp,
    select_lists b gs = Ok (fp, tp) /\
    length fp = length (stat_tp b) /\ length tp = length (stat_tp b) /\
    (gs = false -> fp = stat_fp b /\ tp = stat_tp b).
Proof.
  intros Hft Hts. unfold select_lists. destruct gs.
  - rewrite Hft, Hts, Nat.eqb_refl. cbn [andb].
    set (idx := argsort (map Qopp (stat_score b))).
    assert (Hr : Forall (fun i => (i < length (stat_score b))%nat) idx).
    { exact (score_order_in_range (stat_score b)). }
    assert (Hl : length idx = length (stat_score b)).
    { unfold idx.
      rewrite (Permutation_length (argsort_neg_perm (stat_score b))).
      apply length_seq. }
    rewrite (take_ok (stat_fp b) 0%Z) by (now rewrite Hft, Hts).
    rewrite (take_ok (stat_tp b) 0%Z) by (now rewrite Hts).
    cbn [bind]. eexists. eexists. split; [reflexivity|].
    rewrite !length_map. repeat split; try congruence.
  - rewrite Hft, Nat.eqb_refl. eexists. eexists. split; [reflexivity|].
    repeat split; congruence.
Qed.

End EvaluationFacts.

Lemma curves_zero_gt (fp tp : list Z) :
  tp <> [] -> curves fp tp 0 = Raise ZeroDivisionError.
Proof.
  destruct tp as [|t tp]; [congruence|]. intros _. reflexivity.
Qed.

Lemma lookup_update_same (rs : result_stat) (k : Q) (b b' : bucket) :
  lookup rs k = Ok b -> lookup (update rs k b') k = Ok b'.
Proof.
  induction rs as [|[k0 b0] rs IH]; simpl; [discriminate|].
  destruct (Qeq_bool k k0) eqn:E; simpl; rewrite E; auto.
Qed.

(** With global sorting the dictionary is left as it was. *)
Lemma calculate_ap_global_sort_keeps {numpy : Numpy} (rs : result_stat) (iou : Q) :
  fst (calculate_ap rs iou true) = rs.
Proof.
  unfold calculate_ap. destruct (lookup rs iou) as [b|e]; [|reflexivity].
  destruct (select_lists b true) as [[fp tp]|e]; reflexivity.
Qed.

(** Without global sorting the bucket's ['fp'] and ['tp'] lists hold their
    running sums after the call. *)
Lemma calculate_ap_in_place {numpy : Numpy} (rs : result_stat) (iou : Q)
    (b : bucket) :
  lookup rs iou = Ok b ->
  length (stat_fp b) = length (stat_tp b) ->
  lookup (fst (calculate_ap rs iou false)) iou
  = Ok {| stat_score := stat_score b;
          stat_tp := running_sums (stat_tp b);
          stat_fp := running_sums (stat_fp b);
          stat_gt := stat_gt b |}.
Proof.
  intros Hl Hft. unfold calculate_ap, select_lists. rewrite Hl, Hft, Nat.eqb_refl.
  cbn [fst]. rewrite !cumsum_inplace_sums.
  now apply lookup_update_same with b.
Qed.

(** ** [compute_iou] *)

Section Geometry.

Context {shapely : Shapely} {numpy : Numpy}.

Lemma ratios_spec (box : polygon) (boxes : list polygon) :
  mapM (fun b => py_div (intersection_area box b) (union_area box b)) boxes
  = if zero_union box boxes then Raise ZeroDivisionError
    else Ok (map (fun b => intersection_area box b / union_area box b) boxes).
Proof.
  induction boxes as [|b boxes IH]; [reflexivity|].
  cbn [mapM zero_union existsb]. unfold py_div at 1.
  destruct (Qeq_bool (union_area box b) 0); [reflexivity|].
  cbn [bind orb]. rewrite IH. fold (zero_union box boxes).
  destruct (zero_union box boxes); reflexivity.
Qed.

Lemma compute_iou_cases (box : polygon) (boxes : list polygon) :
  compute_iou box boxes
  = if zero_union box boxes then Raise ZeroDivisionError
    else Ok (map (iou box) boxes).
Proof.
  unfold compute_iou. rewrite ratios_spec.
  destruct (zero_union box boxes); [reflexivity|].
  cbn [bind]. now rewrite map_map.
Qed.

Lemma zero_union_iff (box : polygon) (boxes : list polygon) :
  zero_union box boxes = true <->
  exists b, In b boxes /\ union_area box b == 0.
Proof.
  unfold zero_union. rewrite existsb_exists.
  split; intros (b & Hb & H); exists b; split; auto; now apply Qeq_bool_iff.
Qed.

End Geometry.

(** ** The matching loop *)

Section MatcherFacts.

Context {shapely : Shapely} {numpy : Numpy}.

Lemma nth_map_default (f : polygon -> Q) (G : list polygon) (g0 : polygon)
    (k : nat) :
  (k < length G)%nat -> nth k (map f G) 0 = f (nth k G g0).
Proof.
  intros H. rewrite (nth_indep _ 0 (f g0)) by (now rewrite length_map).
  apply map_nth.
Qed.

(** One iteration either appends one pair of labels as the rule says, or
    raises [IndexError] (no detection of that index) or [ZeroDivisionError]
    (a union of area zero). *)
Lemma match_step_cases (dets : list polygon) (th : Q) (st : loop_state)
    (k : nat) :
  (exists d t f st',
     match_step dets th st k = Ok st' /\
     py_get dets k = Ok d /\
     tp st' = tp st ++ [t] /\ fp st' = fp st ++ [f] /\
     greedy_step (float32 th) d (gt_polygon_list st) t f (gt_polygon_list st'))
  \/ (match_step dets th st k = Raise IndexError /\ (length dets <= k)%nat)
  \/ (match_step dets th st k = Raise ZeroDivisionError /\
      exists d, py_get dets k = Ok d /\
                zero_union d (gt_polygon_list st) = true).
Proof.
  unfold match_step.
  destruct (py_get dets k) as [d|e] eqn:Hd.
  2:{ right. left. unfold py_get in Hd.
      destruct (nth_error dets k) eqn:E; [discriminate|].
      inversion Hd; subst. split; [reflexivity|].
      now apply nth_error_None. }
  cbn [bind]. rewrite compute_iou_cases.
  destruct (zero_union d (gt_polygon_list st)) eqn:Hz.
  { right. right. split; [reflexivity|]. now exists d. }
  left. cbn [bind].
  remember (gt_polygon_list st) as G eqn:HG.
  destruct G as [|g0 G0].
  { exists d, 0%Z, 1%Z. eexists. split; [reflexivity|]. cbn.
    repeat split; try reflexivity. constructor. now left. }
  cbn [length Nat.eqb]. clear HG. set (G := g0 :: G0) in *.
  destruct (@np_argmax_spec (map (iou d) G)) as (j & Hj & Hm & Hlt & Hmax & Hfirst);
    [discriminate|].
  rewrite length_map in Hlt, Hmax.
  assert (Hnth : forall i, (i < length G)%nat ->
                           nth i (map (iou d) G) 0 = iou d (nth i G g0))
    by (intros i Hi; now apply nth_map_default).
  rewrite Hm. cbn [bind]. rewrite (Hnth j Hlt) in *.
  destruct (Qltb (iou d (nth j G g0)) (float32 th)) eqn:Hth.
  - apply Qltb_lt in Hth.
    exists d, 0%Z, 1%Z. eexists. split; [reflexivity|]. cbn.
    repeat split; try reflexivity. constructor. right.
    intros g Hg. destruct (In_nth _ _ g0 Hg) as (i & Hi & <-).
    apply Qle_lt_trans with (iou d (nth j G g0)); [|exact Hth].
    rewrite <- (Hnth i Hi). now apply Hmax.
  - apply Qltb_ge in Hth.
    rewrite Hj. cbn [bind]. rewrite py_pop_ok by exact Hlt. cbn [bind].
    exists d, 1%Z, 0%Z. eexists. split; [reflexivity|]. cbn.
    repeat split; try reflexivity.
    apply greedy_tp with (g := nth j G g0).
    + now apply nth_error_nth'.
    + exact Hth.
    + intros g Hg. destruct (In_nth _ _ g0 Hg) as (i & Hi & <-).
      rewrite <- (Hnth i Hi). now apply Hmax.
    + intros j' g' Hj' Hg'.
      assert (Hi : (j' < length G)%nat) by lia.
      rewrite <- (nth_error_nth G j' g0 Hg').
      rewrite <- (Hnth j' Hi). now apply Hfirst.
Qed.

Lemma match_loop_greedy (dets : list polygon) (th : Q) (order : list nat) :
  forall st st',
    match_loop dets th order st = Ok st' ->
    exists ds tps fps,
      take dets order = Ok ds /\
      tp st' = tp st ++ tps /\ fp st' = fp st ++ fps /\
      greedy_run (float32 th) ds (gt_polygon_list st) tps fps
        (gt_polygon_list st').
Proof.
  induction order as [|k order IH]; intros st st' H; cbn [match_loop] in H.
  - inversion H; subst. exists [], [], []. rewrite !app_nil_r.
    repeat split; constructor.
  - destruct (match_step_cases dets th st k)
      as [(d & t & f & st1 & Hs & Hd & Ht & Hf & Hg)|[[Hs _]|[Hs _]]];
      rewrite Hs in H; cbn [bind] in H; try discriminate.
    destruct (IH _ _ H) as (ds & tps & fps & Hds & Ht' & Hf' & Hrun).
    exists (d :: ds), (t :: tps), (f :: fps).
    unfold take in *. cbn [mapM]. rewrite Hd, Hds. cbn [bind].
    rewrite Ht', Hf', Ht, Hf, <- !app_assoc.
    repeat split; try reflexivity.
    econstructor; eassumption.
Qed.



(** In a step of the rule the label is false positive exactly when no
    ground truth is left or every IoU is below the threshold. *)
Lemma greedy_step_label (th : Q) (d : polygon) (G G' : list polygon) (t f : Z) :
  greedy_step th d G t f G' ->
  (t = 0%Z /\ f = 1%Z <-> G = [] \/ (forall g, In g G -> iou d g < th)) /\
  (t = 1%Z /\ f = 0%Z <-> G <> [] /\ exists g, In g G /\ th <= iou d g).
Proof.
  intros [H|j g Hj Hth Hmax Hfirst].
  - split; split; try (intros [? ?]; discriminate); auto.
    intros [Hne (g & Hg & Hth)]. exfalso.
    destruct H as [->|H]; [contradiction|].
    specialize (H g Hg). lra.
  - apply nth_error_In in Hj.
    split; split; try (intros [? ?]; discriminate); auto.
    + intros [->|H]; [contradiction|]. specialize (H g Hj). lra.
    + intros _. split; [intros ->; contradiction|]. now exists g.
Qed.

Lemma greedy_step_counts (th : Q) (d : polygon) (G G' : list polygon) (t f : Z) :
  greedy_step th d G t f G' ->
  (t + f = 1)%Z /\ (t = 0 \/ t = 1)%Z /\
  (Z.of_nat (length G') + t = Z.of_nat (length G))%Z.
Proof.
  intros [H|j g Hj _ _ _].
  - lia.
  - assert (Hlt : (j < length G)%nat) by (apply nth_error_Some; congruence).
    rewrite length_app, length_firstn, length_skipn. lia.
Qed.

Lemma greedy_run_counts (th : Q) (ds G G' : list polygon) (tps fps : list Z) :
  greedy_run th ds G tps fps G' ->
  length tps = length ds /\ length fps = length ds /\
  Forall2 (fun t f => (t + f = 1)%Z) tps fps /\
  (Z.of_nat (length G') + sumZ tps = Z.of_nat (length G))%Z /\
  (sumZ tps + sumZ fps = Z.of_nat (length ds))%Z.
Proof.
  induction 1 as [G|d ds G G1 G' t f tps fps Hstep Hrun IH].
  - repeat split; try constructor. unfold sumZ. simpl. lia.
  - destruct IH as (Ht & Hf & Hone & HG & Hsum).
    destruct (greedy_step_counts Hstep) as (H1 & _ & HG1).
    unfold sumZ in *. cbn [length fold_right].
    repeat split; try lia. now constructor.
Qed.

Lemma greedy_run_no_gt (th : Q) (ds G' : list polygon) (tps fps : list Z) :
  greedy_run th ds [] tps fps G' ->
  Forall (fun t => t = 0%Z) tps /\ Forall (fun f => f = 1%Z) fps /\ G' = [].
Proof.
  remember [] as G eqn:HG. induction 1 as [G|d ds G G1 G' t f tps fps Hstep Hrun IH].
  - subst. repeat split; constructor.
  - subst. inversion Hstep as [H|j g Hj]; subst.
    + destruct (IH eq_refl) as (Ht & Hf & HG'). repeat split; auto.
    + destruct j; discriminate.
Qed.

Lemma greedy_step_incl (th : Q) (d : polygon) (G G' : list polygon) (t f : Z) :
  greedy_step th d G t f G' -> incl G' G.
Proof.
  intros [H|j g _ _ _ _]; [apply incl_refl|].
  intros x Hx. apply in_app_or in Hx as [Hx|Hx].
  - now apply in_firstn in Hx.
  - now apply in_skipn in Hx.
Qed.

Lemma match_loop_returns (dets : list polygon) (th : Q) (order : list nat) :
  Forall (fun k => (k < length dets)%nat) order ->
  forall st,
    (forall d g, In d dets -> In g (gt_polygon_list st) ->
                 ~ union_area d g == 0) ->
    exists st', match_loop dets th order st = Ok st'.
Proof.
  induction 1 as [|k order Hk Horder IH]; intros st Hnz.
  - now exists st.
  - cbn [match_loop].
    destruct (match_step_cases dets th st k)
      as [(d & t & f & st1 & Hs & Hd & _ & _ & Hg)|[[_ Hout]|[_ (d & Hd & Hz)]]].
    + rewrite Hs. cbn [bind]. apply IH.
      intros d' g Hd' Hg'. apply Hnz; [exact Hd'|].
      now apply (greedy_step_incl Hg).
    + lia.
    + exfalso. apply zero_union_iff in Hz as (g & Hg & Hz).
      apply py_get_ok_lt in Hd as [_ Hd]. apply nth_error_In in Hd.
      exact (Hnz d g Hd Hg Hz).
Qed.

End MatcherFacts.

(** ** The matcher *)

Section MatcherReturns.

Context {shapely : Shapely} {numpy : Numpy}.

(** What a frame with detections that the matcher returned for went
    through. *)
Lemma matcher_ok (det_boxes : list box) (det_score : list Q)
    (gt_boxes : list box) (th : Q) (f : frame_result) :
  matcher (Some det_boxes) det_score gt_boxes th = Ok f ->
  exists dets gts visited left,
    convert_format det_boxes = Ok dets /\
    convert_format gt_boxes = Ok gts /\
    take dets (argsort (map Qopp det_score)) = Ok visited /\
    frame_score f = at_indices 0 det_score (argsort (map Qopp det_score)) /\
    frame_gt f = Z.of_nat (length gt_boxes) /\
    greedy_run (float32 th) visited gts (frame_tp f) (frame_fp f) left.
Proof.
  unfold matcher. intros H.
  rewrite (take_ok det_score 0 (score_order_in_range det_score)) in H.
  cbn [bind] in H.
  destruct (convert_format det_boxes) as [dets|e]; [|discriminate].
  destruct (convert_format gt_boxes) as [gts|e]; [|discriminate].
  cbn [bind] in H.
  destruct (match_loop dets th (argsort (map Qopp det_score))
              {| gt_polygon_list := gts; fp := []; tp := [] |})
    as [st|e] eqn:Hloop; [|discriminate].
  cbn [bind] in H. inversion H; subst; clear H. cbn.
  destruct (match_loop_greedy _ _ _ _ Hloop)
    as (visited & tps & fps & Hv & Ht & Hf & Hrun).
  cbn in Ht, Hf, Hrun. subst.
  exists dets, gts, visited, (gt_polygon_list st).
  repeat split; auto.
Qed.

(** The matcher returns for a frame of well-formed boxes, at least as many
    boxes as scores, and no detection and ground-truth box whose union has
    area zero. *)
Lemma matcher_returns (det_boxes : list box) (det_score : list Q)
    (gt_boxes : list box) (th : Q) (dets gts : list polygon) :
  convert_format det_boxes = Ok dets ->
  convert_format gt_boxes = Ok gts ->
  (length det_score <= length det_boxes)%nat ->
  (forall d g, In d dets -> In g gts -> ~ union_area d g == 0) ->
  exists f, matcher (Some det_boxes) det_score gt_boxes th = Ok f.
Proof.
  intros Hd Hg Hlen Hnz. unfold matcher.
  rewrite (take_ok det_score 0 (score_order_in_range det_score)).
  rewrite Hd, Hg. cbn [bind].
  destruct (@match_loop_returns _ _ dets th (argsort (map Qopp det_score)))
    with (st := {| gt_polygon_list := gts; fp := []; tp := [] |})
    as [st Hst].
  - eapply Forall_impl; [|apply score_order_in_range].
    intros k Hk. apply mapM_ok_length in Hd. cbv beta in Hk. lia.
  - exact Hnz.
  - rewrite Hst. cbn [bind]. eexists. reflexivity.
Qed.

(** What the matcher returns for a frame. *)
Lemma matcher_counts (fr : frame) (f : frame_result) :
  matcher (det_boxes fr) (det_score fr) (gt_boxes fr) (iou_thresh fr) = Ok f ->
  length (frame_score f) = length (frame_tp f) /\
  length (frame_tp f) = length (frame_fp f) /\
  Forall2 (fun t f => (t + f = 1)%Z) (frame_tp f) (frame_fp f) /\
  (sumZ (frame_tp f) <= Z.of_nat (length (gt_boxes fr)))%Z /\
  (sumZ (frame_tp f) + sumZ (frame_fp f) = Z.of_nat (detections fr))%Z /\
  frame_gt f = Z.of_nat (length (gt_boxes fr)).
Proof.
  unfold detections. destruct fr as [[dets|] score gts th]; cbn; intros H.
  - destruct (matcher_ok _ _ _ _ H)
      as (dp & gp & visited & left & _ & Hg & Hv & Hs & Hgt & Hrun).
    destruct (greedy_run_counts Hrun) as (Ht & Hf & Hone & Hleft & Hsum).
    apply mapM_ok_length in Hv. apply mapM_ok_length in Hg.
    assert (Hord : length (argsort (map Qopp score)) = length score)
      by (rewrite (Permutation_length (argsort_neg_perm score));
          apply length_seq).
    rewrite Hs. unfold at_indices. rewrite length_map.
    repeat split; try congruence; try lia.
  - inversion H; subst. cbn. repeat split; try constructor; try lia.
Qed.




End MatcherReturns.

(** ** Buckets *)

Section Buckets.

Context {shapely : Shapely} {numpy : Numpy}.

Lemma accumulate_inv (b : bucket) (fr : frame) (f : frame_result) :
  bucket_inv b ->
  matcher (det_boxes fr) (det_score fr) (gt_boxes fr) (iou_thresh fr) = Ok f ->
  bucket_inv (accumulate b f).
Proof.
  intros (Hst & Htf & Hone) H.
  destruct (matcher_counts _ H) as (Hst' & Htf' & Hone' & _).
  unfold bucket_inv, accumulate. cbn. rewrite !length_app.
  repeat split; try lia. now apply Forall2_app.
Qed.

Lemma lookup_inv (rs : result_stat) (k : Q) (b : bucket) :
  stat_inv rs -> lookup rs k = Ok b -> bucket_inv b.
Proof.
  induction 1 as [|[k0 b0] rs H0 Hrs IH]; simpl; [discriminate|].
  destruct (Qeq_bool k k0); [|exact IH]. now intros [= <-].
Qed.

Lemma update_inv (rs : result_stat) (k : Q) (b : bucket) :
  stat_inv rs -> bucket_inv b -> stat_inv (update rs k b).
Proof.
  intros Hrs Hb. induction Hrs as [|[k0 b0] rs H0 Hrs IH]; simpl.
  - constructor.
  - destruct (Qeq_bool k k0); constructor; auto.
Qed.

Lemma call_inv (rs : result_stat) (fr : frame) :
  stat_inv rs -> stat_inv (fst (call rs fr)).
Proof.
  intros Hrs. unfold call, caluclate_tp_fp.
  destruct (matcher _ _ _ _) as [f|e] eqn:Hm; [|exact Hrs].
  destruct (lookup rs (iou_thresh fr)) as [b|e] eqn:Hl; [|exact Hrs].
  cbn [fst]. apply update_inv; [exact Hrs|].
  eapply accumulate_inv; [|exact Hm]. eapply lookup_inv; eassumption.
Qed.

End Buckets.

(** ** Flags and running sums *)

Lemma sumZ_app (l1 l2 : list Z) : (sumZ (l1 ++ l2) = sumZ l1 + sumZ l2)%Z.
Proof.
  unfold sumZ. induction l1 as [|x l1 IH]; simpl; lia.
Qed.

Lemma sumZ_perm (l1 l2 : list Z) : Permutation l1 l2 -> sumZ l1 = sumZ l2.
Proof.
  unfold sumZ. induction 1; simpl; lia.
Qed.

Lemma flags_sum_nonneg (tps fps : list Z) :
  Forall2 flags tps fps -> (0 <= sumZ tps)%Z.
Proof.
  unfold sumZ. induction 1 as [|t f tps fps Hf _ IH]; simpl; [lia|].
  destruct Hf as [[-> _]|[-> _]]; lia.
Qed.

Section FlagFacts.

Context {shapely : Shapely} {numpy : Numpy}.

Lemma greedy_run_flags (th : Q) (ds G G' : list polygon) (tps fps : list Z) :
  greedy_run th ds G tps fps G' -> Forall2 flags tps fps.
Proof.
  induction 1 as [G|d ds G G1 G' t f tps fps Hstep _ IH]; constructor; auto.
  destruct Hstep; [right|left]; now split.
Qed.

Lemma matcher_flags (fr : frame) (f : frame_result) :
  matcher (det_boxes fr) (det_score fr) (gt_boxes fr) (iou_thresh fr) = Ok f ->
  Forall2 flags (frame_tp f) (frame_fp f).
Proof.
  destruct fr as [[dets|] score gts th]; cbn; intros H.
  - destruct (matcher_ok _ _ _ _ H)
      as (dp & gp & visited & left & _ & _ & _ & _ & _ & Hrun).
    exact (greedy_run_flags Hrun).
  - inversion H; subst. constructor.
Qed.

Lemma accumulate_ok (b : bucket) (fr : frame) (f : frame_result) :
  bucket_ok b ->
  matcher (det_boxes fr) (det_score fr) (gt_boxes fr) (iou_thresh fr) = Ok f ->
  bucket_ok (accumulate b f).
Proof.
  intros (Hlen & Hflags & Hsum) H.
  destruct (matcher_counts _ H) as (Hst & _ & _ & Htp & _ & Hgt).
  pose proof (matcher_flags _ H) as Hf.
  unfold bucket_ok, accumulate. cbn. rewrite !length_app, sumZ_app.
  repeat split; try lia. now apply Forall2_app.
Qed.

Lemma lookup_ok (rs : result_stat) (k : Q) (b : bucket) :
  stat_ok rs -> lookup rs k = Ok b -> bucket_ok b.
Proof.
  induction 1 as [|[k0 b0] rs H0 Hrs IH]; simpl; [discriminate|].
  destruct (Qeq_bool k k0); [|exact IH]. now intros [= <-].
Qed.

Lemma update_ok (rs : result_stat) (k : Q) (b : bucket) :
  stat_ok rs -> bucket_ok b -> stat_ok (update rs k b).
Proof.
  intros Hrs Hb. induction Hrs as [|[k0 b0] rs H0 Hrs IH]; simpl.
  - constructor.
  - destruct (Qeq_bool k k0); constructor; auto.
Qed.

Lemma call_ok (rs : result_stat) (fr : frame) :
  stat_ok rs -> stat_ok (fst (call rs fr)).
Proof.
  intros Hrs. unfold call, caluclate_tp_fp.
  destruct (matcher _ _ _ _) as [f|e] eqn:Hm; [|exact Hrs].
  destruct (lookup rs (iou_thresh fr)) as [b|e] eqn:Hl; [|exact Hrs].
  cbn [fst]. apply update_ok; [exact Hrs|].
  eapply accumulate_ok; [|exact Hm]. eapply lookup_ok; eassumption.
Qed.

End FlagFacts.

Lemma Forall2_nth {A B : Type} (R : A -> B -> Prop) (l : list A) (l' : list B)
    (d : A) (d' : B) (i : nat) :
  Forall2 R l l' -> (i < length l)%nat -> R (nth i l d) (nth i l' d').
Proof.
  intros H. revert i. induction H as [|x y l l' Hxy _ IH]; intros [|i] Hi;
    simpl in *; try lia; auto.
  apply IH. lia.
Qed.

Lemma at_indices_flags (tps fps : list Z) (idx : list nat) :
  Forall2 flags tps fps ->
  Forall (fun i => (i < length tps)%nat) idx ->
  Forall2 flags (at_indices 0%Z tps idx) (at_indices 0%Z fps idx).
Proof.
  intros Hf. unfold at_indices.
  induction 1 as [|i idx Hi _ IH]; simpl; constructor; auto.
  now apply Forall2_nth.
Qed.

Lemma flags_nonneg (tps fps : list Z) :
  Forall2 flags tps fps -> Forall (fun t => (0 <= t)%Z) tps.
Proof.
  induction 1 as [|t f tps fps Hf _ IH]; constructor; auto.
  destruct Hf as [[-> _]|[-> _]]; lia.
Qed.

(** The running sums of non-negative numbers ascend, from the start value
    to the total. *)
Lemma sums_from_sorted (l : list Z) :
  Forall (fun t => (0 <= t)%Z) l ->
  forall c,
    StronglySorted Z.le (sums_from c l) /\
    Forall (fun T => (c <= T <= c + sumZ l)%Z) (sums_from c l).
Proof.
  unfold sumZ.
  induction 1 as [|x l Hx Hl IH]; intros c; cbn [sums_from fold_right].
  - split; constructor.
  - destruct (IH (c + x)%Z) as [Hs Hb]. split.
    + constructor; [exact Hs|].
      eapply Forall_impl; [|exact Hb]. cbv beta. intros T HT. lia.
    + constructor.
      * pose proof (Forall_forall (fun t => (0 <= t)%Z) l) as [Hall _].
        assert (0 <= fold_right Z.add 0 l)%Z.
        { clear - Hl. induction Hl; simpl; lia. }
        lia.
      * eapply Forall_impl; [|exact Hb]. cbv beta. intros T HT. lia.
Qed.

(** Cumulative true and false positives: after [k] labels they add up to
    [k]. *)
Lemma sums_from_flags (tps fps : list Z) :
  Forall2 flags tps fps ->
  forall ct cf,
    Forall (fun p => (ct <= fst p /\ cf <= snd p /\
                      ct + cf < fst p + snd p)%Z)
           (combine (sums_from ct tps) (sums_from cf fps)).
Proof.
  induction 1 as [|t f tps fps Hf _ IH]; intros ct cf;
    cbn [sums_from combine]; constructor.
  - cbn. destruct Hf as [[-> ->]|[-> ->]]; lia.
  - eapply Forall_impl; [|apply (IH (ct + t) (cf + f))%Z].
    cbv beta. intros [T F]. cbn. destruct Hf as [[-> ->]|[-> ->]]; lia.
Qed.

(** ** Recall and precision *)

Lemma float_div_le (a b g : Z) :
  (0 < g)%Z -> (a <= b)%Z -> float a / float g <= float b / float g.
Proof.
  intros Hg Hab. unfold float, Qdiv.
  apply Qmult_le_compat_r.
  - now rewrite <- Zle_Qle.
  - apply Qinv_le_0_compat. change 0 with (inject_Z 0).
    rewrite <- Zle_Qle. lia.
Qed.

Lemma float_div_unit (a g : Z) :
  (0 < g)%Z -> (0 <= a <= g)%Z -> in_unit (float a / float g).
Proof.
  intros Hg [H0 H1]. unfold in_unit. split.
  - setoid_replace 0 with (float 0 / float g).
    + now apply float_div_le.
    + unfold float, Qdiv. now rewrite Qmult_0_l.
  - setoid_replace 1 with (float g / float g).
    + now apply float_div_le.
    + unfold float, Qdiv. rewrite Qmult_inv_r; [reflexivity|].
      intros E. unfold Qeq in E. simpl in E. lia.
Qed.

Lemma float_nonzero (g : Z) : (g <> 0)%Z -> Qeq_bool (float g) 0 = false.
Proof.
  intros Hg. destruct (Qeq_bool (float g) 0) eqn:E; [|reflexivity].
  apply Qeq_bool_iff in E. unfold float, Qeq in E. simpl in E. lia.
Qed.

(** Lines 178 to 184 do not raise when the divisors are not zero. *)
Lemma rates_loop (tp fp : list Z) (gt_total : Z) (l l' : list Z) :
  forall pre pre',
    tp = pre ++ l -> fp = pre' ++ l' ->
    length pre = length pre' -> length l = length l' ->
    (gt_total <> 0)%Z ->
    Forall (fun p => (snd p + fst p <> 0)%Z) (combine l l') ->
    mapM (fun '(idx, val) =>
            t <- py_get tp idx ;; py_div (float t) (float gt_total))
         (combine (seq (length pre) (length l)) l)
    = Ok (recalls l gt_total) /\
    mapM (fun '(idx, val) =>
            t <- py_get tp idx ;;
            f <- py_get fp idx ;;
            py_div (float t) (float (f + t)))
         (combine (seq (length pre) (length l)) l)
    = Ok (precisions l' l).
Proof.
  revert l'. induction l as [|x l IH]; intros l' pre pre' Htp Hfp Hpre Hl Hg Hd.
  - split; reflexivity.
  - destruct l' as [|y l']; [discriminate|].
    cbn [combine] in Hd. inversion Hd as [|? ? Hxy Hd']; subst. cbn in Hxy.
    destruct (IH l' (pre ++ [x]) (pre' ++ [y])) as [IHr IHp]; auto.
    + now rewrite <- app_assoc.
    + now rewrite <- app_assoc.
    + rewrite !length_app. simpl. lia.
    + rewrite length_app in IHr, IHp. cbn [length] in IHr, IHp.
      replace (length pre + 1)%nat with (S (length pre)) in IHr, IHp by lia.
      cbn [length seq combine mapM].
      rewrite (py_get_nth _ 0%Z) by (rewrite length_app; simpl; lia).
      rewrite nth_middle'. cbn [bind].
      unfold py_div at 1 3. rewrite (float_nonzero Hg). cbn [bind].
      rewrite IHr. cbn [bind].
      rewrite Hpre at 1.
      rewrite (py_get_nth _ 0%Z) by (rewrite length_app; simpl; lia).
      rewrite nth_middle'. cbn [bind].
      rewrite (float_nonzero Hxy). cbn [bind].
      rewrite IHp. cbn [bind]. split; reflexivity.
Qed.

Lemma curves_rates (fp tp : list Z) (gt_total : Z) :
  length fp = length tp ->
  (gt_total <> 0)%Z ->
  Forall (fun p => (snd p + fst p <> 0)%Z) (combine tp fp) ->
  curves fp tp gt_total = voc_ap (recalls tp gt_total) (precisions fp tp).
Proof.
  intros Hlen Hg Hd. unfold curves, enumerate.
  destruct (@rates_loop tp fp gt_total tp fp [] []) as [Hr Hp]; auto.
  cbn [length] in Hr, Hp. rewrite Hr. cbn [bind]. rewrite Hp. reflexivity.
Qed.

Lemma voc_ap_in_unit (rec prec : list Q) :
  length rec = length prec ->
  StronglySorted Qle rec -> Forall in_unit rec -> Forall in_unit prec ->
  exists ap mrec mpre,
    voc_ap rec prec = Ok (ap, mrec, mpre) /\ 0 <= ap <= 1.
Proof.
  intros Hlen Hs Hur Hup.
  pose proof (@voc_ap_eq rec prec ltac:(lia)) as Heq. cbv zeta in Heq.
  set (mrec := 0 :: rec ++ [1]) in *.
  set (mpre := suffix_max (0 :: prec ++ [0])) in *.
  eexists. exists mrec, mpre. split; [exact Heq|].
  rewrite fold_left_sumQ.
  pose proof (sentinels_sorted Hs Hur) as Hsorted. fold mrec in Hsorted.
  assert (Hb := @strips_bound mrec mpre (length rec + 1)).
  assert (Hlast : nth (length rec + 1) mrec 0 = 1).
  { unfold mrec. replace (length rec + 1)%nat with (S (length rec)) by lia.
    cbn [nth]. rewrite app_nth2 by lia. now rewrite Nat.sub_diag. }
  rewrite Hlast in Hb. change (nth 0 mrec 0) with 0 in Hb.
  assert (Hm : length mrec = (length rec + 2)%nat)
    by (unfold mrec; simpl; rewrite length_app; simpl; lia).
  destruct Hb as [Hb0 Hb1].
  - intros i Hi. apply sorted_nth_le; [exact Hsorted|]. lia.
  - intros i Hi. apply envelope_in_unit; [exact Hup|].
    simpl. rewrite length_app. simpl. lia.
  - split; lra.
Qed.

Lemma recalls_sorted (tp : list Z) (gt_total : Z) :
  (0 < gt_total)%Z -> StronglySorted Z.le tp ->
  StronglySorted Qle (recalls tp gt_total).
Proof.
  intros Hg Hs. unfold recalls. apply StronglySorted_map.
  eapply StronglySorted_impl; [|exact Hs].
  intros a b Hab. now apply float_div_le.
Qed.

Section UnitFacts.

Context {numpy : Numpy}.

(** With global sorting and lists of one length, [fp] and [tp] are the
    bucket's lists reordered along [np.argsort(-score)]. *)
Lemma select_lists_sorted (b : bucket) :
  length (stat_fp b) = length (stat_tp b) ->
  length (stat_tp b) = length (stat_score b) ->
  select_lists b true
  = Ok (at_indices 0%Z (stat_fp b) (argsort (map Qopp (stat_score b))),
        at_indices 0%Z (stat_tp b) (argsort (map Qopp (stat_score b)))).
Proof.
  intros Hft Hts. unfold select_lists.
  rewrite Hft, Hts, Nat.eqb_refl. cbn [andb].
  pose proof (score_order_in_range (stat_score b)) as Hr.
  rewrite (take_ok (stat_fp b) 0%Z) by (now rewrite Hft, Hts).
  rewrite (take_ok (stat_tp b) 0%Z) by (now rewrite Hts).
  reflexivity.
Qed.

(** The lists [calculate_ap] works on are flags with the bucket's number of
    true positives, for either value of [global_sort_detections]. *)
Lemma select_lists_flags (b : bucket) (gs : bool) :
  bucket_ok b ->
  exists fp tp,
    select_lists b gs = Ok (fp, tp) /\
    Forall2 flags tp fp /\ sumZ tp = sumZ (stat_tp b).
Proof.
  intros (Hlen & Hflags & _).
  pose proof (Forall2_length Hflags) as Htf.
  destruct gs.
  - rewrite select_lists_sorted by congruence.
    eexists. eexists. split; [reflexivity|]. split.
    + apply at_indices_flags; [exact Hflags|].
      rewrite <- Hlen. apply score_order_in_range.
    + apply sumZ_perm. apply at_indices_argsort_perm. congruence.
  - unfold select_lists. rewrite <- Htf, Nat.eqb_refl.
    eexists. eexists. split; [reflexivity|]. now split.
Qed.

Lemma curves_in_unit (fp tp : list Z) (gt_total : Z) :
  Forall2 flags tp fp -> (sumZ tp <= gt_total)%Z -> (0 < gt_total)%Z ->
  exists ap mrec mpre,
    curves (cumsum_inplace fp) (cumsum_inplace tp) gt_total
    = Ok (ap, mrec, mpre) /\ 0 <= ap <= 1.
Proof.
  intros Hflags Hsum Hg.
  rewrite !cumsum_inplace_sums. unfold running_sums.
  pose proof (Forall2_length Hflags) as Htf.
  pose proof (sums_from_flags Hflags 0 0) as Hcum.
  destruct (sums_from_sorted (flags_nonneg Hflags) 0) as [Hsorted Hbound].
  rewrite curves_rates.
  - apply voc_ap_in_unit.
    + unfold recalls, precisions.
      rewrite !length_map, length_combine, !sums_from_length. lia.
    + now apply recalls_sorted.
    + unfold recalls. apply Forall_map.
      eapply Forall_impl; [|exact Hbound]. cbv beta. intros T HT.
      apply float_div_unit; lia.
    + unfold precisions. apply Forall_map.
      eapply Forall_impl; [|exact Hcum]. cbv beta. intros [T F]. cbn.
      intros HT. apply float_div_unit; lia.
  - rewrite !sums_from_length. lia.
  - lia.
  - eapply Forall_impl; [|exact Hcum]. cbv beta. intros [T F]. cbn. lia.
Qed.

End UnitFacts.

(** ** Scores without ties *)

Lemma StronglySorted_nth {A : Type} (R : A -> A -> Prop) (l : list A) (d : A) :
  StronglySorted R l ->
  forall i j, (i < j < length l)%nat -> R (nth i l d) (nth j l d).
Proof.
  induction 1 as [|x l Hs IH Hx]; intros i j Hij; simpl in Hij; [lia|].
  destruct j as [|j]; [lia|]. destruct i as [|i]; simpl.
  - apply (proj1 (Forall_forall _ _) Hx). apply nth_In. lia.
  - apply IH. lia.
Qed.

Lemma seq_sorted (n a : nat) : StronglySorted lt (seq a n).
Proof.
  revert a. induction n as [|n IH]; intros a; simpl; constructor; auto.
  apply Forall_forall. intros i Hi. apply in_seq in Hi. lia.
Qed.

(** Two strictly ascending lists with the same elements are equal. *)
Lemma ascending_perm_eq (l l' : list nat) :
  StronglySorted lt l -> StronglySorted lt l' -> Permutation l l' -> l = l'.
Proof.
  intros Hl. revert l'. induction Hl as [|x l Hs IH Hx]; intros l' Hl' Hp.
  - apply Permutation_nil in Hp. now subst.
  - destruct Hl' as [|y l' Hs' Hy].
    + apply Permutation_sym, Permutation_nil in Hp. discriminate.
    + assert (x = y).
      { assert (Hxin : In x (y :: l'))
          by (apply (Permutation_in _ Hp); now left).
        assert (Hyin : In y (x :: l))
          by (apply (Permutation_in _ (Permutation_sym Hp)); now left).
        destruct Hxin as [->|Hxin]; [reflexivity|].
        destruct Hyin as [->|Hyin]; [reflexivity|].
        pose proof (proj1 (Forall_forall _ _) Hx _ Hyin).
        pose proof (proj1 (Forall_forall _ _) Hy _ Hxin). lia. }
      subst y. f_equal. apply IH; [exact Hs'|].
      now apply Permutation_cons_inv with x.
Qed.

Lemma sorted_distinct_ascending (R : nat -> nat -> Prop) (l : list nat) :
  (forall i j, In i l -> In j l -> i <> j -> R i j -> (i < j)%nat) ->
  StronglySorted R l -> NoDup l -> StronglySorted lt l.
Proof.
  intros HR Hs. induction Hs as [|x l Hs IH Hx]; intros Hnd; constructor.
  - apply IH.
    + intros i j Hi Hj. apply HR; now right.
    + now inversion Hnd.
  - apply Forall_forall. intros j Hj.
    apply HR; [now left|now right| |].
    + intros ->. inversion Hnd. contradiction.
    + exact (proj1 (Forall_forall _ _) Hx j Hj).
Qed.

Section NoTies.

Context {numpy : Numpy}.

(** On scores that descend strictly, [np.argsort(-score)] is the identity,
    whatever the sort does with equal keys. *)
Lemma argsort_strictly_descending (score : list Q) :
  StronglySorted (fun x y => y < x) score ->
  argsort (map Qopp score) = seq 0 (length score).
Proof.
  intros Hs. apply ascending_perm_eq.
  - apply sorted_distinct_ascending
      with (R := fun i j => nth i (map Qopp score) 0
                            <= nth j (map Qopp score) 0).
    + intros i j Hi Hj Hne Hle.
      pose proof (score_order_in_range score) as Hr.
      pose proof (proj1 (Forall_forall _ _) Hr i Hi) as Hi'.
      pose proof (proj1 (Forall_forall _ _) Hr j Hj) as Hj'.
      cbv beta in Hi', Hj'.
      change 0 with (Qopp 0) in Hle at 1 2. rewrite !map_nth in Hle.
      destruct (Nat.lt_trichotomy i j) as [Hlt|[Heq|Hgt]]; [exact Hlt|lia|].
      pose proof (@StronglySorted_nth Q _ score 0 Hs j i ltac:(lia)) as H.
      cbv beta in H. lra.
    + apply argsort_sorted.
    + apply (Permutation_NoDup (Permutation_sym (argsort_neg_perm score))).
      apply seq_NoDup.
  - apply seq_sorted.
  - apply argsort_neg_perm.
Qed.

End NoTies.

(** ** Keys of the dictionary *)

Lemma Qeq_bool_trans_false (k k0 k' : Q) :
  Qeq_bool k k0 = false -> Qeq_bool k0 k' = true -> Qeq_bool k k' = false.
Proof.
  intros Hne Heq. destruct (Qeq_bool k k') eqn:E; [|reflexivity].
  apply Qeq_bool_iff in Heq, E.
  assert (H : k == k0) by (rewrite E; now symmetry).
  apply Qeq_bool_iff in H. congruence.
Qed.

(** Keys that are equal numbers name the same bucket. *)
Lemma lookup_Qeq (rs : result_stat) (k k' : Q) :
  k == k' -> lookup rs k = lookup rs k'.
Proof.
  intros H. induction rs as [|[k0 b0] rs IH]; simpl; [reflexivity|].
  assert (E : Qeq_bool k k0 = Qeq_bool k' k0).
  { destruct (Qeq_bool k k0) eqn:E1, (Qeq_bool k' k0) eqn:E2; try reflexivity.
    - apply Qeq_bool_iff in E1. rewrite H in E1.
      apply Qeq_bool_iff in E1. congruence.
    - apply Qeq_bool_iff in E2. rewrite <- H in E2.
      apply Qeq_bool_iff in E2. congruence. }
  rewrite E. now destruct (Qeq_bool k' k0).
Qed.

Lemma lookup_update_other (rs : result_stat) (k k0 : Q) (b : bucket) :
  Qeq_bool k k0 = false -> lookup (update rs k0 b) k = lookup rs k.
Proof.
  intros Hne. induction rs as [|[k' b'] rs IH]; simpl; [reflexivity|].
  destruct (Qeq_bool k0 k') eqn:E; simpl.
  - now rewrite (@Qeq_bool_trans_false k k0 k' Hne E).
  - rewrite IH. reflexivity.
Qed.

Lemma update_keys (rs : result_stat) (k : Q) (b : bucket) :
  map fst (update rs k b) = map fst rs.
Proof.
  induction rs as [|[k' b'] rs IH]; simpl; [reflexivity|].
  destruct (Qeq_bool k k'); simpl; congruence.
Qed.

Lemma lookup_raise (rs : result_stat) (k : Q) (e : exn) :
  lookup rs k = Raise e -> e = KeyError.
Proof.
  induction rs as [|[k' b'] rs IH]; simpl.
  - now intros [= <-].
  - destruct (Qeq_bool k k'); [discriminate|exact IH].
Qed.

Section Independence.

Context {numpy : Numpy}.

Lemma calculate_ap_other (rs : result_stat) (iou k : Q) (gs : bool) :
  Qeq_bool k iou = false ->
  lookup (fst (calculate_ap rs iou gs)) k = lookup rs k.
Proof.
  intros Hne. unfold calculate_ap.
  destruct (lookup rs iou) as [b|e]; [|reflexivity].
  destruct (select_lists b gs) as [[fp tp]|e]; [|reflexivity].
  cbn [fst]. destruct gs; [reflexivity|].
  now apply lookup_update_other.
Qed.

Lemma calculate_ap_keys (rs : result_stat) (iou : Q) (gs : bool) :
  map fst (fst (calculate_ap rs iou gs)) = map fst rs.
Proof.
  unfold calculate_ap.
  destruct (lookup rs iou) as [b|e]; [|reflexivity].
  destruct (select_lists b gs) as [[fp tp]|e]; [|reflexivity].
  cbn [fst]. destruct gs; [reflexivity|]. apply update_keys.
Qed.

(** What [calculate_ap] returns depends on the bucket of its key alone. *)
Lemma calculate_ap_local (rs rs' : result_stat) (iou iou' : Q) (gs : bool) :
  lookup rs iou = lookup rs' iou' ->
  snd (calculate_ap rs iou gs) = snd (calculate_ap rs' iou' gs).
Proof.
  intros H. unfold calculate_ap. rewrite H.
  destruct (lookup rs' iou') as [b|e]; [|reflexivity].
  destruct (select_lists b gs) as [[fp tp]|e]; reflexivity.
Qed.

(** A call that returns leaves the ground-truth count of its bucket. *)
Lemma calculate_ap_keeps_gt (rs : result_stat) (iou : Q) (gs : bool)
    (b : bucket) (r : Q * list Q * list Q) :
  lookup rs iou = Ok b ->
  snd (calculate_ap rs iou gs) = Ok r ->
  exists b',
    lookup (fst (calculate_ap rs iou gs)) iou = Ok b' /\
    stat_gt b' = stat_gt b.
Proof.
  intros Hl. unfold calculate_ap. rewrite Hl.
  destruct (select_lists b gs) as [[fp tp]|e]; [|discriminate].
  cbn [fst snd]. intros _. destruct gs.
  - now exists b.
  - eexists. split; [now apply lookup_update_same with b|reflexivity].
Qed.

End Independence.

(** ** Exceptions *)

Lemma mapM_raise_in {A B : Type} (f : A -> result B) (l : list A) (e0 e : exn) :
  (forall x e', In x l -> f x = Raise e' -> e' = e0) ->
  mapM f l = Raise e -> e = e0.
Proof.
  induction l as [|x l IH]; simpl; intros Hf; [discriminate|].
  destruct (f x) as [y|e'] eqn:E; cbn [bind].
  - destruct (mapM f l) as [ys|e'']; cbn [bind]; [discriminate|].
    intros [= <-]. apply IH; [|reflexivity].
    intros z e' Hz. apply Hf. now right.
  - intros [= <-]. apply (Hf x); [now left|exact E].
Qed.

Lemma py_div_raise (a b : Q) (e : exn) :
  py_div a b = Raise e -> e = ZeroDivisionError.
Proof.
  unfold py_div. destruct (Qeq_bool b 0); [|discriminate]. now intros [= <-].
Qed.

Lemma enumerate_in {A : Type} (l : list A) (idx : nat) (val : A) :
  In (idx, val) (enumerate l) -> (idx < length l)%nat.
Proof.
  unfold enumerate. intros H. apply in_combine_l in H.
  apply in_seq in H. lia.
Qed.

(** On lists of one length, lines 178 to 188 raise nothing but
    [ZeroDivisionError]. *)
Lemma curves_raise (fp tp : list Z) (gt_total : Z) (e : exn) :
  length fp = length tp ->
  curves fp tp gt_total = Raise e -> e = ZeroDivisionError.
Proof.
  intros Hlen. unfold curves.
  destruct (mapM _ (enumerate tp)) as [rec|e1] eqn:Hrec; cbn [bind].
  2:{ intros [= <-]. revert Hrec. apply mapM_raise_in.
      intros [idx val] e' Hin. apply enumerate_in in Hin.
      rewrite (py_get_nth tp 0%Z Hin). cbn [bind]. apply py_div_raise. }
  destruct (mapM _ (enumerate tp)) as [prec|e2] eqn:Hprec in |- *; cbn [bind].
  2:{ intros [= <-]. revert Hprec. apply mapM_raise_in.
      intros [idx val] e' Hin. apply enumerate_in in Hin.
      rewrite (py_get_nth tp 0%Z Hin). cbn [bind].
      rewrite (py_get_nth fp 0%Z) by lia. cbn [bind]. apply py_div_raise. }
  apply mapM_ok_length in Hrec, Hprec.
  rewrite (@voc_ap_eq rec prec) by lia. discriminate.
Qed.

(** ** Boxes *)

Section BoxFacts.

Context {shapely : Shapely} {numpy : Numpy}.

Lemma box_2_polygon_cases (b : box) :
  box_2_polygon b
  = if well_shaped b then Ok (Polygon (corners b)) else Raise IndexError.
Proof.
  destruct b as [|r0 [|r1 [|r2 [|r3 rest]]]]; try reflexivity;
    destruct r0 as [|? [|? ?]]; try reflexivity;
    destruct r1 as [|? [|? ?]]; try reflexivity;
    destruct r2 as [|? [|? ?]]; try reflexivity;
    destruct r3 as [|? [|? ?]]; reflexivity.
Qed.

Lemma footprint_polygon (b : box) :
  box_2_polygon (footprint b) = box_2_polygon b.
Proof.
  destruct b as [|r0 [|r1 [|r2 [|r3 rest]]]]; try reflexivity;
    destruct r0 as [|? [|? ?]]; try reflexivity;
    destruct r1 as [|? [|? ?]]; try reflexivity;
    destruct r2 as [|? [|? ?]]; try reflexivity;
    destruct r3 as [|? [|? ?]]; reflexivity.
Qed.

Lemma footprint_convert (boxes : list box) :
  convert_format (map footprint boxes) = convert_format boxes.
Proof.
  unfold convert_format.
  induction boxes as [|b boxes IH]; [reflexivity|].
  cbn [map mapM]. now rewrite footprint_polygon, IH.
Qed.

End BoxFacts.

(** ** The detections in the order of the visits *)

Lemma take_at_indices {A : Type} (a : list A) (idx : list nat) (r : list A)
    (d : A) :
  take a idx = Ok r -> r = at_indices d a idx.
Proof.
  unfold take, at_indices. revert r.
  induction idx as [|k idx IH]; intros r; cbn [mapM map].
  - now intros [= <-].
  - destruct (py_get a k) as [x|e] eqn:E; [|discriminate]. cbn [bind].
    destruct (mapM (py_get a) idx) as [r'|e]; [|discriminate]. cbn [bind].
    intros [= <-]. apply py_get_ok_lt in E as [_ E].
    now rewrite (nth_error_nth a k d E), (IH r' eq_refl).
Qed.

Section Visits.

Context {shapely : Shapely} {numpy : Numpy}.

Lemma convert_format_ground (boxes : list box) (ps : list polygon) :
  convert_format boxes = Ok ps -> ps = map ground_polygon boxes.
Proof.
  unfold convert_format. revert ps.
  induction boxes as [|b boxes IH]; intros ps; cbn [mapM map].
  - now intros [= <-].
  - rewrite box_2_polygon_cases. destruct (well_shaped b); [|discriminate].
    cbn [bind].
    destruct (mapM box_2_polygon boxes) as [ps'|e]; [|discriminate].
    cbn [bind]. intros [= <-]. now rewrite (IH ps' eq_refl).
Qed.

(** What the matcher returns for a frame in terms of the boxes passed: the
    scores in the order of [np.argsort(-det_score)] and the labels of the
    rule for the ground-plane polygons of the detections in that order. *)
Lemma matcher_rule (det_boxes : list box) (det_score : list Q)
    (gt_boxes : list box) (th : Q) (f : frame_result) :
  matcher (Some det_boxes) det_score gt_boxes th = Ok f ->
  frame_score f = at_indices 0 det_score (argsort (map Qopp det_score)) /\
  exists left,
    greedy_run (float32 th)
      (map (fun k => ground_polygon (nth k det_boxes []))
           (argsort (map Qopp det_score)))
      (map ground_polygon gt_boxes) (frame_tp f) (frame_fp f) left.
Proof.
  intros H.
  destruct (matcher_ok _ _ _ _ H)
    as (dets & gts & visited & left & Hd & Hg & Hv & Hs & _ & Hrun).
  split; [exact Hs|]. exists left.
  apply convert_format_ground in Hd, Hg. subst dets gts.
  apply (take_at_indices _ _ (ground_polygon [])) in Hv. subst visited.
  unfold at_indices in Hrun.
  erewrite map_ext in Hrun; [exact Hrun|].
  intros k. cbv beta. now rewrite (map_nth ground_polygon).
Qed.

End Visits.

(** ** The envelope *)

(** The envelope descends and lies on or above the list it is built
    from. *)
Lemma suffix_max_descending (l : list Q) :
  descending (suffix_max l) /\ Forall2 Qle l (suffix_max l).
Proof.
  unfold descending, suffix_max.
  induction l as [|x l [IHs IHd]]; cbn [fold_right].
  - split; constructor.
  - destruct (fold_right suffix_max_step [] l) as [|m r] eqn:E;
      cbn [suffix_max_step].
    + inversion IHd; subst. split.
      * repeat constructor.
      * constructor; [apply Qle_refl|constructor].
    + assert (Hm : m <= py_max x m /\ x <= py_max x m).
      { destruct (py_max_cases x m) as [[-> H]|[-> H]]; split;
          try apply Qle_refl; auto. now apply Qlt_le_weak. }
      destruct Hm as [Hm Hx]. split.
      * constructor; [exact IHs|].
        constructor; [exact Hm|].
        apply StronglySorted_inv in IHs as [_ Hr].
        eapply Forall_impl; [|exact Hr]. cbv beta. intros y Hy.
        now apply Qle_trans with m.
      * now constructor.
Qed.

(** ** Drawing *)

Section DrawingFacts.

Context {pygame : Pygame}.

Lemma draw_segments_app (color : Z * Z * Z) (thickness : Z)
    (a b : list (list Z * list Z)) :
  forall s,
    draw_segments color thickness s (a ++ b)
    = and_then (draw_segments color thickness s a)
               (fun s => draw_segments color thickness s b).
Proof.
  induction a as [|[p q] a IH]; intros s; cbn [app draw_segments and_then];
    [reflexivity|].
  destruct (line s color p q thickness) as [s'|e]; cbn [and_then];
    [apply IH|reflexivity].
Qed.

(** The twelve calls of the loop body are the calls for the edges of the
    box. *)
Lemma draw_box_segments (color : Z * Z * Z) (thickness : Z) (s : surface)
    (entry : option box) :
  draw_box color thickness s entry
  = draw_segments color thickness s (entry_segments entry).
Proof.
  destruct entry as [b|]; [|reflexivity].
  unfold draw_box, entry_segments, drawable. rewrite length_map.
  destruct (Nat.ltb_spec (length b) 8) as [Hlt|Hge].
  - rewrite (proj2 (Nat.leb_gt _ _) Hlt). reflexivity.
  - rewrite (proj2 (Nat.leb_le _ _) Hge).
    cbn [cuboid_edges map draw_segments].
    repeat match goal with
           | |- context [line ?s0 ?c ?p ?q ?t] =>
               destruct (line s0 c p q t); cbn [and_then]; [|reflexivity]
           end.
    reflexivity.
Qed.

Lemma draw_boxes_segments (color : Z * Z * Z) (thickness : Z)
    (l : list (option box)) :
  forall s,
    draw_boxes color thickness s l
    = draw_segments color thickness s (segments l).
Proof.
  unfold segments.
  induction l as [|entry l IH]; intros s; cbn [draw_boxes flat_map];
    [reflexivity|].
  rewrite draw_segments_app, draw_box_segments.
  destruct (draw_segments color thickness s (entry_segments entry));
    cbn [and_then]; [apply IH|reflexivity].
Qed.

Lemma segments_length (l : list (option box)) :
  length (segments l) = (12 * length (filter drawable l))%nat.
Proof.
  unfold segments.
  induction l as [|entry l IH]; [reflexivity|].
  cbn [flat_map filter]. rewrite length_app, IH.
  destruct entry as [b|]; cbn [entry_segments]; [|cbn; lia].
  destruct (drawable (Some b)); cbn [length map cuboid_edges]; lia.
Qed.

Lemma segments_filter (l : list (option box)) :
  segments (filter drawable l) = segments l.
Proof.
  unfold segments.
  induction l as [|entry l IH]; [reflexivity|].
  cbn [filter]. destruct (drawable entry) eqn:E; cbn [flat_map].
  - now rewrite IH.
  - rewrite IH. destruct entry as [b|]; cbn [entry_segments]; [|reflexivity].
    now rewrite E.
Qed.

Lemma draw_bbox_segments (s : surface) (boxes : option (list (option box)))
    (color : Z * Z * Z) (thickness : Z) :
  draw_bbox_in_pygame s boxes color thickness
  = draw_segments color thickness s (segments (entries boxes)).
Proof.
  destruct boxes as [l|]; [|reflexivity].
  unfold draw_bbox_in_pygame, entries.
  destruct l as [|entry l]; [reflexivity|].
  cbn [length Nat.eqb]. apply draw_boxes_segments.
Qed.

End DrawingFacts.

(** ** Growth *)

Lemma extends_refl (b : bucket) : extends b b.
Proof.
  exists [], [], [], 0%Z. rewrite !app_nil_r. repeat split; lia.
Qed.

Lemma extends_trans (b1 b2 b3 : bucket) :
  extends b1 b2 -> extends b2 b3 -> extends b1 b3.
Proof.
  intros (sc & tps & fps & g & Hs & Ht & Hf & Hg & Hg0)
         (sc' & tps' & fps' & g' & Hs' & Ht' & Hf' & Hg' & Hg0').
  exists (sc ++ sc'), (tps ++ tps'), (fps ++ fps'), (g + g')%Z.
  rewrite Hs', Ht', Hf', Hg', Hs, Ht, Hf, Hg, !app_assoc.
  repeat split; lia.
Qed.

Section GrowthFacts.

Context {shapely : Shapely} {numpy : Numpy}.

Lemma call_extends (rs : result_stat) (fr : frame) (k : Q) (b : bucket) :
  lookup rs k = Ok b ->
  exists b', lookup (fst (call rs fr)) k = Ok b' /\ extends b b'.
Proof.
  intros Hl. unfold call, caluclate_tp_fp.
  destruct (matcher _ _ _ _) as [f|e] eqn:Hm;
    [|exists b; split; [exact Hl|apply extends_refl]].
  destruct (lookup rs (iou_thresh fr)) as [b0|e] eqn:Hl0;
    [|exists b; split; [exact Hl|apply extends_refl]].
  cbn [fst]. destruct (Qeq_bool k (iou_thresh fr)) eqn:E.
  - apply Qeq_bool_iff in E.
    rewrite (lookup_Qeq _ E), (lookup_update_same _ _ _ Hl0).
    rewrite (lookup_Qeq rs E), Hl0 in Hl. inversion Hl; subst.
    eexists. split; [reflexivity|].
    exists (frame_score f), (frame_tp f), (frame_fp f), (frame_gt f).
    destruct (matcher_counts _ Hm) as (_ & _ & _ & _ & _ & Hgt).
    cbn. repeat split. rewrite Hgt. lia.
  - rewrite lookup_update_other by exact E.
    exists b. split; [exact Hl|apply extends_refl].
Qed.

End GrowthFacts.

(** ** Curves without true positives, and without false positives *)

Lemma sums_from_nth (l : list Z) :
  forall c i,
    (i < length l)%nat ->
    nth i (sums_from c l) 0%Z = (c + sumZ (firstn (S i) l))%Z.
Proof.
  unfold sumZ.
  induction l as [|x l IH]; intros c i Hi; simpl in Hi; [lia|].
  destruct i as [|i]; cbn [sums_from nth firstn fold_right].
  - destruct l; simpl; lia.
  - rewrite IH by lia. cbn [firstn fold_right]. lia.
Qed.

Lemma nth_in_skipn {A : Type} (l : list A) (d : A) (i j : nat) :
  (i <= j < length l)%nat -> In (nth j l d) (skipn i l).
Proof.
  intros H. replace j with (i + (j - i))%nat by lia.
  rewrite <- nth_skipn. apply nth_In. rewrite length_skipn. lia.
Qed.

Lemma sumQ_zero (l : list Q) : Forall (fun q => q == 0) l -> sumQ l == 0.
Proof.
  unfold sumQ. induction 1 as [|x l Hx _ IH]; simpl; [reflexivity|].
  rewrite Hx, IH. reflexivity.
Qed.

Lemma flags_fp_nonneg (tps fps : list Z) :
  Forall2 flags tps fps -> Forall (fun f => (0 <= f)%Z) fps.
Proof.
  induction 1 as [|t f tps fps Hf _ IH]; constructor; auto.
  destruct Hf as [[_ ->]|[_ ->]]; lia.
Qed.

(** With a precision of zero throughout, the average precision is zero. *)
Lemma voc_ap_zero_precision (rec prec : list Q) :
  (length rec <= length prec)%nat ->
  Forall (fun p => p == 0) prec ->
  exists ap mrec mpre, voc_ap rec prec = Ok (ap, mrec, mpre) /\ ap == 0.
Proof.
  intros Hlen Hz.
  pose proof (@voc_ap_eq rec prec Hlen) as Heq. cbv zeta in Heq.
  eexists. eexists. eexists. split; [exact Heq|].
  rewrite fold_left_sumQ, Qplus_0_l. apply sumQ_zero.
  apply Forall_map, Forall_forall. intros i Hi.
  apply filter_In in Hi as [Hi _]. apply in_seq in Hi.
  assert (Hpad : Forall (fun p => p == 0) (0 :: prec ++ [0])).
  { constructor; [reflexivity|]. apply Forall_app. split; [exact Hz|].
    now constructor. }
  assert (Hi' : (i < length (0%Q :: prec ++ [0%Q]))%nat)
    by (simpl; rewrite length_app; simpl; lia).
  destruct (suffix_max_is_max (0 :: prec ++ [0]) Hi') as [Hin _].
  apply in_skipn in Hin.
  pose proof (proj1 (Forall_forall _ _) Hpad _ Hin) as H0. cbv beta in H0.
  unfold strip. rewrite H0. apply Qmult_0_r.
Qed.

(** With a precision of one at the indices 1 to [k], the strips up to [k]
    add up to the recall covered. *)
Lemma strips_unit_precision (mrec mpre : list Q) (k : nat) :
  (forall i, (1 <= i <= k)%nat -> nth i mpre 0 == 1) ->
  sumQ (map (strip mrec mpre) (filter (changed mrec) (seq 1 k)))
  == nth k mrec 0 - nth 0 mrec 0.
Proof.
  induction k as [|k IH]; intros Hone.
  - unfold sumQ. simpl. lra.
  - rewrite seq_S, filter_app, map_app, sumQ_app.
    rewrite IH by (intros i Hi; apply Hone; lia).
    replace (1 + k)%nat with (S k) by lia. cbn [filter].
    pose proof (Hone (S k) ltac:(lia)) as Hp.
    unfold changed at 1. replace (S k - 1)%nat with k by lia.
    destruct (Qeq_bool (nth (S k) mrec 0) (nth k mrec 0)) eqn:E;
      cbn [negb map]; unfold sumQ; cbn [fold_right].
    + apply Qeq_bool_iff in E. rewrite E. lra.
    + unfold strip. replace (S k - 1)%nat with k by lia. rewrite Hp. lra.
Qed.

(** With a precision of one throughout, the average precision is the last
    recall. *)
Lemma voc_ap_unit_precision (rec prec : list Q) :
  length rec = length prec ->
  Forall (fun p => p == 1) prec ->
  exists ap mrec mpre,
    voc_ap rec prec = Ok (ap, mrec, mpre) /\
    ap == nth (length rec) (0 :: rec) 0.
Proof.
  intros Hlen Hone.
  pose proof (@voc_ap_eq rec prec ltac:(lia)) as Heq. cbv zeta in Heq.
  set (mrec := 0 :: rec ++ [1]) in *.
  set (padded := 0 :: prec ++ [0]) in *.
  set (mpre := suffix_max padded) in *.
  eexists. exists mrec, mpre. split; [exact Heq|].
  rewrite fold_left_sumQ, Qplus_0_l.
  assert (Hplen : length padded = (length prec + 2)%nat)
    by (unfold padded; simpl; rewrite length_app; simpl; lia).
  assert (Hpad : Forall (fun p => p <= 1) padded).
  { unfold padded. constructor; [lra|]. apply Forall_app. split.
    - eapply Forall_impl; [|exact Hone]. cbv beta. intros p ->. lra.
    - constructor; [lra|constructor]. }
  assert (Hmpre : forall i, (1 <= i <= length rec)%nat -> nth i mpre 0 == 1).
  { intros i Hi.
    assert (Hi' : (i < length padded)%nat) by lia.
    destruct (suffix_max_is_max padded Hi') as [Hin Hmax]. fold mpre in Hin, Hmax.
    apply Qle_antisym.
    - apply in_skipn in Hin.
      exact (proj1 (Forall_forall _ _) Hpad _ Hin).
    - assert (Hx : In (nth i padded 0) (skipn i padded))
        by (apply nth_in_skipn; lia).
      pose proof (proj1 (Forall_forall _ _) Hmax _ Hx) as Hle.
      cbv beta in Hle.
      assert (H1 : nth i padded 0 == 1).
      { unfold padded. destruct i as [|i]; [lia|]. cbn [nth].
        rewrite app_nth1 by lia.
        apply (proj1 (Forall_forall _ _) Hone). apply nth_In. lia. }
      rewrite <- H1. exact Hle. }
  assert (Hn : nth (length rec) mrec 0 = nth (length rec) (0 :: rec) 0).
  { unfold mrec. change (0 :: rec ++ [1]) with ((0 :: rec) ++ [1]).
    apply app_nth1. simpl. lia. }
  assert (H0 : nth 0 mrec 0 = 0) by reflexivity.
  assert (Hlast : nth (S (length rec)) mpre 0 = 0).
  { assert (Hi' : (S (length rec) < length padded)%nat) by lia.
    destruct (suffix_max_is_max padded Hi') as [Hin _]. fold mpre in Hin.
    unfold padded in Hin. cbn [skipn] in Hin.
    rewrite skipn_app in Hin.
    rewrite skipn_all2 in Hin by lia.
    replace (length rec - length prec)%nat with 0%nat in Hin by lia.
    cbn [skipn In] in Hin. destruct Hin as [Hin|[]]. now symmetry. }
  clearbody mpre mrec.
  replace (length rec + 1)%nat with (S (length rec)) by lia.
  rewrite seq_S, filter_app, map_app, sumQ_app.
  rewrite (strips_unit_precision mrec mpre Hmpre), Hn, H0.
  replace (1 + length rec)%nat with (S (length rec)) by lia.
  cbn [filter]. destruct (changed mrec (S (length rec)));
    cbn [map]; unfold sumQ; cbn [fold_right].
  - unfold strip. rewrite Hlast. lra.
  - lra.
Qed.

Lemma final_recall (tp : list Z) (g : Z) :
  nth (length (recalls (sums_from 0 tp) g)) (0 :: recalls (sums_from 0 tp) g) 0
  == float (sumZ tp) / float g.
Proof.
  unfold recalls. rewrite length_map, sums_from_length.
  destruct (length tp) as [|n] eqn:Hlen.
  - destruct tp; [|discriminate]. cbn. unfold float, Qdiv.
    now rewrite Qmult_0_l.
  - cbn [nth].
    rewrite (nth_indep _ 0 (float 0 / float g))
      by (rewrite length_map, sums_from_length; lia).
    rewrite (map_nth (fun t => float t / float g)).
    rewrite sums_from_nth by lia.
    rewrite <- Hlen, firstn_all. reflexivity.
Qed.

Section EdgeCurves.

Context {numpy : Numpy}.

Lemma select_lists_sums (b : bucket) (gs : bool) :
  bucket_ok b ->
  exists fp tp,
    select_lists b gs = Ok (fp, tp) /\
    Forall2 flags tp fp /\
    sumZ tp = sumZ (stat_tp b) /\ sumZ fp = sumZ (stat_fp b).
Proof.
  intros (Hlen & Hflags & _).
  pose proof (Forall2_length Hflags) as Htf.
  destruct gs.
  - rewrite select_lists_sorted by congruence.
    eexists. eexists. split; [reflexivity|]. split; [|split].
    + apply at_indices_flags; [exact Hflags|].
      rewrite <- Hlen. apply score_order_in_range.
    + apply sumZ_perm. apply at_indices_argsort_perm. congruence.
    + apply sumZ_perm. apply at_indices_argsort_perm. congruence.
  - unfold select_lists. rewrite <- Htf, Nat.eqb_refl.
    eexists. eexists. split; [reflexivity|]. now repeat split.
Qed.

(** Recall and precision of flags, as [calculate_ap] computes them. *)
Lemma curves_of_flags (fp tp : list Z) (gt_total : Z) :
  Forall2 flags tp fp -> (0 < gt_total)%Z ->
  curves (cumsum_inplace fp) (cumsum_inplace tp) gt_total
  = voc_ap (recalls (sums_from 0 tp) gt_total)
           (precisions (sums_from 0 fp) (sums_from 0 tp)) /\
  length (recalls (sums_from 0 tp) gt_total)
  = length (precisions (sums_from 0 fp) (sums_from 0 tp)).
Proof.
  intros Hflags Hg.
  rewrite !cumsum_inplace_sums. unfold running_sums.
  pose proof (Forall2_length Hflags) as Htf.
  pose proof (sums_from_flags Hflags 0 0) as Hcum. split.
  - apply curves_rates.
    + rewrite !sums_from_length. lia.
    + lia.
    + eapply Forall_impl; [|exact Hcum]. cbv beta. intros [T F]. cbn. lia.
  - unfold recalls, precisions.
    rewrite !length_map, length_combine, !sums_from_length. lia.
Qed.

End EdgeCurves.

(** * The claims *)

(** ** C1: no ground truth *)

(** C1.  Scenario D: a run whose only frame has one detection and no
    ground-truth box.  [calculate_ap] raises [ZeroDivisionError] at the
    division by [gt_total], with and without global sorting: no recall value
    is produced and no AP is returned. *)
Lemma calculate_ap_zero_gt_raises :
  let rs0 := [(1 # 2, empty_bucket)] in
  let rs1 :=
    fst (caluclate_tp_fp (Some [Rect.rect 0 0 2 2]) [9 # 10] [] rs0 (1 # 2)) in
  lookup rs1 (1 # 2)
  = Ok {| stat_score := [9 # 10]; stat_tp := [0%Z]; stat_fp := [1%Z];
          stat_gt := 0 |} /\
  snd (calculate_ap rs1 (1 # 2) true) = Raise ZeroDivisionError /\
  snd (calculate_ap rs1 (1 # 2) false) = Raise ZeroDivisionError.
Proof.
  vm_compute. repeat split.
Qed.

(** C1, amended.  For a bucket whose ground-truth count is 0 and whose
    lists have one length, [calculate_ap] returns AP 0.0 with the two
    sentinel points alone when no detection was accumulated, and raises
    [ZeroDivisionError] when at least one detection was accumulated. *)
Theorem calculate_ap_zero_gt {numpy : Numpy} (rs : result_stat) (iou : Q)
    (b : bucket) (global_sort_detections : bool) :
  lookup rs iou = Ok b ->
  stat_gt b = 0%Z ->
  length (stat_fp b) = length (stat_tp b) ->
  length (stat_tp b) = length (stat_score b) ->
  snd (calculate_ap rs iou global_sort_detections)
  = match stat_tp b with
    | [] => Ok (0, [0; 1], [0; 0])
    | _ :: _ => Raise ZeroDivisionError
    end.
Proof.
  intros Hl Hgt Hft Hts. unfold calculate_ap. rewrite Hl.
  destruct (select_lists_ok b global_sort_detections Hft Hts)
    as (fp & tp & -> & Hlf & Hlt & _).
  cbn [snd]. rewrite Hgt.
  destruct (stat_tp b) as [|t l].
  - destruct fp; [|discriminate]. destruct tp; [|discriminate]. reflexivity.
  - apply curves_zero_gt. intros E.
    apply (f_equal (@length Z)) in E.
    rewrite cumsum_inplace_length, Hlt in E. discriminate.
Qed.

Lemma calculate_ap_zero_gt_witness :
  snd (calculate_ap [(1 # 2, empty_bucket)] (1 # 2) true)
  = Ok (0, [0; 1], [0; 0]) /\
  snd (calculate_ap
         [(1 # 2, {| stat_score := [9 # 10]; stat_tp := [0%Z];
                     stat_fp := [1%Z]; stat_gt := 0 |})] (1 # 2) false)
  = Raise ZeroDivisionError.
Proof.
  split.
  - exact (@calculate_ap_zero_gt numpy_stable [(1 # 2, empty_bucket)] (1 # 2)
             empty_bucket true eq_refl eq_refl eq_refl eq_refl).
  - exact (@calculate_ap_zero_gt numpy_stable
             [(1 # 2, {| stat_score := [9 # 10]; stat_tp := [0%Z];
                         stat_fp := [1%Z]; stat_gt := 0 |})] (1 # 2)
             {| stat_score := [9 # 10]; stat_tp := [0%Z];
                stat_fp := [1%Z]; stat_gt := 0 |} false
             eq_refl eq_refl eq_refl eq_refl).
Defined.

(** ** C2: the input of [calculate_ap] *)

(** C2.  One frame with two detections, each on its own ground-truth box,
    accumulated into an empty bucket; then [calculate_ap] twice without
    global sorting.  The first call replaces the bucket's ['tp'] list
    [[1, 1]] by its running sums [[1, 2]], and the second one again, by
    [[1, 3]]: the first call returns AP 1.0, the second 1.5.  With global
    sorting both calls return 1.0 and the bucket is untouched. *)
Theorem calculate_ap_mutates_bucket :
  let boxes := [Rect.rect 0 0 2 2; Rect.rect 5 5 7 7] in
  let rs0 := [(1 # 2, empty_bucket)] in
  let rs1 := fst (caluclate_tp_fp (Some boxes) [9 # 10; 8 # 10] boxes rs0 (1 # 2)) in
  let rs2 := fst (calculate_ap rs1 (1 # 2) false) in
  let rs3 := fst (calculate_ap rs2 (1 # 2) false) in
  let bucket_with tp :=
    {| stat_score := [9 # 10; 8 # 10]; stat_tp := tp; stat_fp := [0; 0]%Z;
       stat_gt := 2 |} in
  lookup rs1 (1 # 2) = Ok (bucket_with [1; 1]%Z) /\
  lookup rs2 (1 # 2) = Ok (bucket_with [1; 2]%Z) /\
  lookup rs3 (1 # 2) = Ok (bucket_with [1; 3]%Z) /\
  (exists ap1 ap2,
     returned_ap (snd (calculate_ap rs1 (1 # 2) false)) = Some ap1 /\
     returned_ap (snd (calculate_ap rs2 (1 # 2) false)) = Some ap2 /\
     ap1 == 1 /\ ap2 == 3 # 2) /\
  (exists ap1 ap2,
     returned_ap (snd (calculate_ap rs1 (1 # 2) true)) = Some ap1 /\
     returned_ap (snd (calculate_ap (fst (calculate_ap rs1 (1 # 2) true))
                                    (1 # 2) true)) = Some ap2 /\
     ap1 == 1 /\ ap2 == 1).
Proof.
  cbv zeta. repeat split; try (vm_compute; reflexivity).
  - eexists. eexists. repeat split; try (vm_compute; reflexivity).
  - eexists. eexists. repeat split; try (vm_compute; reflexivity).
Qed.

(** ** C3: unions of area zero *)

(** C3.  A box of width zero against itself: the union has area zero and
    [compute_iou] raises [ZeroDivisionError] instead of returning 0.0. *)
Lemma compute_iou_zero_union_raises :
  let flat := Polygon [(0, 0); (0, 0); (0, 2); (0, 2)] in
  union_area flat flat == 0 /\
  compute_iou flat [flat] = Raise ZeroDivisionError /\
  compute_iou flat [flat] <> Ok [0].
Proof.
  cbv zeta. split; [reflexivity|]. split; [reflexivity|].
  vm_compute. discriminate.
Qed.

(** C3, amended.  [compute_iou] returns, candidate by candidate, the
    [float32] value of intersection area over union area when no candidate's
    union with [box] has area zero, and raises [ZeroDivisionError] when one
    has: no IoU is defined as 0.0. *)
Theorem compute_iou_spec {shapely : Shapely} {numpy : Numpy}
    (box : polygon) (boxes : list polygon) :
  ((forall b, In b boxes -> ~ union_area box b == 0) ->
   compute_iou box boxes = Ok (map (iou box) boxes)) /\
  ((exists b, In b boxes /\ union_area box b == 0) ->
   compute_iou box boxes = Raise ZeroDivisionError).
Proof.
  rewrite compute_iou_cases. split.
  - intros H. destruct (zero_union box boxes) eqn:E; [|reflexivity].
    apply zero_union_iff in E as (b & Hb & Hz). now elim (H b Hb).
  - intros H. apply zero_union_iff in H. now rewrite H.
Qed.

Lemma compute_iou_spec_witness :
  let a := Polygon [(0, 0); (2, 0); (2, 2); (0, 2)] in
  let flat := Polygon [(0, 0); (0, 0); (0, 2); (0, 2)] in
  compute_iou a [a] = Ok [iou a a] /\
  compute_iou flat [a; flat] = Raise ZeroDivisionError.
Proof.
  cbv zeta. split.
  - apply (proj1 (@compute_iou_spec rect_shapely numpy_stable
                    [(0, 0); (2, 0); (2, 2); (0, 2)]
                    [[(0, 0); (2, 0); (2, 2); (0, 2)]])).
    intros b [<-|[]]. vm_compute. discriminate.
  - apply (proj2 (@compute_iou_spec rect_shapely numpy_stable
                    [(0, 0); (0, 0); (0, 2); (0, 2)]
                    [[(0, 0); (2, 0); (2, 2); (0, 2)];
                     [(0, 0); (0, 0); (0, 2); (0, 2)]])).
    exists [(0, 0); (0, 0); (0, 2); (0, 2)]. split.
    + right. now left.
    + reflexivity.
Defined.

(** ** C4: the matching rule *)

(** C4.  One detection that covers 0.69999999 of its ground-truth box,
    matched at threshold 0.7: the IoU is below the threshold, as a ratio and
    as the [float32] value that [compute_iou] returns, and the detection is
    labelled true positive all the same, since the threshold enters the
    comparison as its [float32] value, which is that of the IoU. *)
Lemma iou_below_threshold_true_positive :
  let det := Rect.rect 0 0 69999999 1 in
  let truth := Rect.rect 0 0 100000000 1 in
  let ratio := Rect.inter (corners det) (corners truth)
               / Rect.union (corners det) (corners truth) in
  ratio == 69999999 # 100000000 /\
  ratio < 7 # 10 /\
  Binary32.round ratio < 7 # 10 /\
  @matcher rect_shapely numpy_portable (Some [det]) [9 # 10] [truth] (7 # 10)
  = Ok {| frame_fp := [0]%Z; frame_tp := [1]%Z; frame_score := [9 # 10];
          frame_gt := 1 |}.
Proof.
  cbv zeta. repeat split; vm_compute; reflexivity.
Qed.

(** C4, amended.  For a frame with detections that [caluclate_tp_fp] gets
    through, the detections are visited in descending-score order; each is
    labelled false positive exactly when no ground truth remains or the
    greatest IoU against the remaining ground truth is below the threshold,
    IoU and threshold both as [float32] values, and true positive otherwise,
    in which case the remaining box of lowest index among those of greatest
    IoU is removed; every ground-truth box is thus claimed at most once, and
    without ground truth every detection is a false positive.  The polygons
    are those of the x and y of the first four corners of the boxes. *)
Theorem matcher_greedy {shapely : Shapely} {numpy : Numpy}
    (det_boxes : list box) (det_score : list Q)
    (gt_boxes : list box) (th : Q) (f : frame_result) :
  matcher (Some det_boxes) det_score gt_boxes th = Ok f ->
  matched_greedily det_boxes det_score gt_boxes th f.
Proof.
  intros H. destruct (matcher_rule _ _ _ _ H) as (Hs & left & Hrun).
  exists (argsort (map Qopp det_score)), left.
  split; [apply argsort_neg_perm|].
  split; [exact Hs|].
  split; [rewrite Hs; apply argsort_neg_descending|].
  split; [exact Hrun|].
  destruct (greedy_run_counts Hrun) as (_ & _ & _ & Hleft & _).
  rewrite length_map in Hleft. split; [exact Hleft|].
  intros ->. cbn [map] in Hrun.
  destruct (greedy_run_no_gt Hrun) as (Ht & Hf & _). now split.
Qed.

(** Four detections against two ground-truth boxes at threshold 0.7, visited
    by descending score: the first lies within the second ground-truth box
    with an IoU of 0.01 and is a false positive while both boxes remain; the
    second equals the first ground-truth box; the third has an IoU of 0.7
    with the second one, which is not below the threshold; for the fourth no
    ground truth remains. *)
Lemma matcher_greedy_witness :
  let boxes := [Rect.rect 1 0 3 2; Rect.rect 0 0 2 2; Rect.rect 5 5 6 6;
                Rect.rect 0 0 10 7] in
  let truth := [Rect.rect 0 0 2 2; Rect.rect 0 0 10 10] in
  @matched_greedily rect_shapely numpy_portable
    boxes [6 # 10; 9 # 10; 95 # 100; 8 # 10] truth (7 # 10)
    {| frame_fp := [1; 0; 0; 1]%Z; frame_tp := [0; 1; 1; 0]%Z;
       frame_score := [95 # 100; 9 # 10; 8 # 10; 6 # 10]; frame_gt := 2 |}.
Proof.
  cbv zeta. apply matcher_greedy. vm_compute. reflexivity.
Defined.

(** ** C5: [voc_ap] *)

(** C5.  For [rec] and [prec] of one length, [voc_ap] returns the recall
    with the sentinels 0.0 and 1.0 around it; the precision with the
    sentinels 0.0 and 0.0 around it in which every entry is replaced by the
    greatest entry at its index or after it; and as [ap] the sum of
    [(mrec[i] - mrec[i-1]) * mpre[i]] over exactly the indices [i >= 1] at
    which [mrec] changes.  When the recall and precision values lie in
    [[0, 1]], in whatever order, so does [ap]. *)
Theorem voc_ap_spec (rec prec : list Q) :
  length rec = length prec ->
  let mrec := 0 :: rec ++ [1] in
  let padded := 0 :: prec ++ [0] in
  exists ap mpre,
    voc_ap rec prec = Ok (ap, mrec, mpre) /\
    length mpre = length padded /\
    (forall i, (i < length mpre)%nat ->
       is_max_of (nth i mpre 0) (skipn i padded)) /\
    ap == sumQ (map (strip mrec mpre)
                    (filter (changed mrec) (seq 1 (length mrec - 1)))) /\
    (Forall in_unit rec -> Forall in_unit prec -> 0 <= ap <= 1).
Proof.
  intros Hlen mrec padded.
  assert (Hm : (length mrec - 1 = length rec + 1)%nat)
    by (unfold mrec; simpl; rewrite length_app; simpl; lia).
  assert (Hp : length padded = (length prec + 2)%nat)
    by (unfold padded; simpl; rewrite length_app; simpl; lia).
  pose proof (@voc_ap_eq rec prec ltac:(lia)) as Heq. cbv zeta in Heq.
  fold mrec in Heq. fold padded in Heq.
  set (mpre := suffix_max padded) in *.
  set (idxs := filter (changed mrec) (seq 1 (length rec + 1))) in *.
  assert (Hsum : fold_left (fun ap i => ap + strip mrec mpre i) idxs 0
                 == sumQ (map (strip mrec mpre) idxs)).
  { rewrite fold_left_sumQ. lra. }
  eexists. exists mpre. split; [exact Heq|].
  split; [apply suffix_max_length|].
  split.
  { intros i Hi. apply suffix_max_is_max.
    unfold mpre in Hi. now rewrite suffix_max_length in Hi. }
  split.
  { rewrite Hm. exact Hsum. }
  intros Hur Hup. rewrite Hsum. unfold idxs.
  assert (Hrec : Forall in_unit mrec).
  { unfold mrec. constructor; [unfold in_unit; lra|].
    apply Forall_app. split; [exact Hur|].
    constructor; [unfold in_unit; lra|constructor]. }
  assert (Hlm : length mrec = (length rec + 2)%nat) by lia.
  assert (Hlp : length mpre = (length rec + 2)%nat)
    by (unfold mpre; rewrite suffix_max_length; lia).
  destruct (suffix_max_descending padded) as [Hdesc _]. fold mpre in Hdesc.
  assert (Hb := @strips_by_parts mrec mpre (length rec + 1)).
  assert (Hlast : nth (length rec + 1) mrec 0 = 1).
  { unfold mrec. replace (length rec + 1)%nat with (S (length rec)) by lia.
    cbn [nth]. rewrite app_nth2 by lia. now rewrite Nat.sub_diag. }
  rewrite Hlast in Hb.
  assert (Hq : in_unit (nth (length rec + 1) mpre 0))
    by (apply envelope_in_unit; [exact Hup|]; fold padded; lia).
  destruct Hq as [Hq0 Hq1].
  set (q := nth (length rec + 1) mpre 0) in *.
  set (s := sumQ _) in *.
  assert (Hs : 0 <= s - 1 * q <= 1 - q).
  { apply Hb.
    - reflexivity.
    - intros i Hi. apply (proj1 (Forall_forall _ _) Hrec). apply nth_In. lia.
    - intros i Hi. apply envelope_in_unit; [exact Hup|]. fold padded. lia.
    - intros i Hi.
      apply (StronglySorted_nth 0 Hdesc (i := i) (j := S i)). lia. }
  clearbody s q. lra.
Qed.

Lemma voc_ap_spec_witness :
  exists ap mpre,
    voc_ap [1 # 2; 1; 1 # 4] [1; 1 # 2; 3 # 4]
    = Ok (ap, [0; 1 # 2; 1; 1 # 4; 1], mpre) /\
    0 <= ap <= 1.
Proof.
  destruct (@voc_ap_spec [1 # 2; 1; 1 # 4] [1; 1 # 2; 3 # 4] eq_refl)
    as (ap & mpre & Hv & _ & _ & _ & Hb).
  exists ap, mpre. split; [exact Hv|].
  apply Hb.
  - repeat constructor; unfold Qle; simpl; lia.
  - repeat constructor; unfold Qle; simpl; lia.
Defined.

(** ** C6: equal scores *)

(** C6.  The frame [frame_tied]: nine detections of score 0.9, of which
    the second, third, sixth and eighth in input order lie on ground truth,
    alternate with nine of score 0.5.  Were equal scores visited in input
    order, the labels of the first nine visits would be 0, 1, 1, 0, 0, 1, 0,
    1, 0.  The kernel of [np.argsort] partitions an array of eighteen keys
    and does not keep equal keys in input order: the code labels the
    detections otherwise, and with global sorting [calculate_ap] reorders the
    accumulated labels otherwise and returns another average precision. *)
Lemma tied_scores_not_in_input_order :
  let in_input_order := ([0; 1; 1; 0; 0; 1; 0; 1; 0] ++ repeat 0 9)%Z in
  let scores := repeat (9 # 10) 9 ++ repeat (1 # 2) 9 in
  let rs := [(1 # 2, bucket_tied)] in
  (exists f,
     @matcher rect_shapely numpy_stable (det_boxes frame_tied)
       (det_score frame_tied) (gt_boxes frame_tied) (iou_thresh frame_tied)
     = Ok f /\
     frame_score f = scores /\ frame_tp f = in_input_order) /\
  (exists f,
     @matcher rect_shapely numpy_portable (det_boxes frame_tied)
       (det_score frame_tied) (gt_boxes frame_tied) (iou_thresh frame_tied)
     = Ok f /\
     frame_score f = scores /\ frame_tp f <> in_input_order) /\
  (exists fp tp,
     @select_lists numpy_portable bucket_tied true = Ok (fp, tp) /\
     tp <> in_input_order) /\
  (exists ap ap',
     returned_ap (snd (@calculate_ap numpy_stable rs (1 # 2) true)) = Some ap /\
     returned_ap (snd (@calculate_ap numpy_portable rs (1 # 2) true))
     = Some ap' /\
     ~ ap == ap').
Proof.
  cbv zeta. repeat split.
  - eexists. split; [vm_compute; reflexivity|]. split; reflexivity.
  - eexists. split; [vm_compute; reflexivity|].
    split; [reflexivity|]. cbn. discriminate.
  - eexists. eexists. split; [vm_compute; reflexivity|]. cbn. discriminate.
  - eexists. eexists. split; [vm_compute; reflexivity|].
    split; [vm_compute; reflexivity|].
    intros H. vm_compute in H. discriminate.
Qed.

(** C6, amended.  Both sorts are [np.argsort(-score)] with the default
    kind.  The matcher visits the detections of a frame along the indices
    this returns: the scores it hands on and the labels, which are those of
    the greedy rule for the detections taken in that order, follow them.
    [calculate_ap] with global sorting reorders the accumulated ['fp'] and
    ['tp'] lists along the indices it returns for the accumulated scores.
    In both cases the indices are a permutation of all indices along which
    the scores descend; where scores are equal the order is the one
    [np.argsort] chooses, which the code does not constrain. *)
Theorem score_sorts_descending {shapely : Shapely} {numpy : Numpy}
    (det_boxes : list box) (det_score : list Q)
    (gt_boxes : list box) (th : Q) (f : frame_result) (b : bucket)
    (fp tp : list Z) :
  (matcher (Some det_boxes) det_score gt_boxes th = Ok f ->
   let score_order_descend := argsort (map Qopp det_score) in
   Permutation score_order_descend (seq 0 (length det_score)) /\
   descending (at_indices 0 det_score score_order_descend) /\
   frame_score f = at_indices 0 det_score score_order_descend /\
   exists left,
     greedy_run (float32 th)
       (map (fun k => ground_polygon (nth k det_boxes [])) score_order_descend)
       (map ground_polygon gt_boxes) (frame_tp f) (frame_fp f) left) /\
  (select_lists b true = Ok (fp, tp) ->
   let sorted_index := argsort (map Qopp (stat_score b)) in
   Permutation sorted_index (seq 0 (length (stat_score b))) /\
   descending (at_indices 0 (stat_score b) sorted_index) /\
   fp = at_indices 0%Z (stat_fp b) sorted_index /\
   tp = at_indices 0%Z (stat_tp b) sorted_index /\
   Permutation fp (stat_fp b) /\ Permutation tp (stat_tp b)).
Proof.
  split.
  - intros H. cbv zeta.
    destruct (matcher_rule _ _ _ _ H) as (Hs & left & Hrun).
    split; [apply argsort_neg_perm|].
    split; [apply argsort_neg_descending|].
    split; [exact Hs|]. now exists left.
  - unfold select_lists.
    destruct (length (stat_fp b) =? length (stat_tp b))%nat eqn:Hft;
      [|discriminate].
    destruct (length (stat_tp b) =? length (stat_score b))%nat eqn:Hts;
      [|discriminate].
    apply Nat.eqb_eq in Hft, Hts. cbn [andb].
    pose proof (score_order_in_range (stat_score b)) as Hr.
    rewrite (take_ok (stat_fp b) 0%Z) by (now rewrite Hft, Hts).
    rewrite (take_ok (stat_tp b) 0%Z) by (now rewrite Hts).
    cbn [bind]. intros [= <- <-]. cbv zeta.
    split; [apply argsort_neg_perm|].
    split; [apply argsort_neg_descending|].
    repeat split; try reflexivity.
    + apply at_indices_argsort_perm. congruence.
    + now apply at_indices_argsort_perm.
Qed.

(** Three detections, the first and the last of score 0.5 and on the one
    ground-truth box, the second of score 0.9 and off it, and a bucket of
    three scores of which two are equal. *)
Lemma score_sorts_descending_witness :
  let boxes := [Rect.rect 0 0 2 2; Rect.rect 5 5 6 6; Rect.rect 0 0 2 2] in
  let scores := [1 # 2; 9 # 10; 1 # 2] in
  let f := {| frame_fp := [1; 0; 1]%Z; frame_tp := [0; 1; 0]%Z;
              frame_score := [9 # 10; 1 # 2; 1 # 2]; frame_gt := 1 |} in
  let b := {| stat_score := scores; stat_tp := [1; 0; 0]%Z;
              stat_fp := [0; 1; 1]%Z; stat_gt := 1 |} in
  (descending (frame_score f) /\
   exists left,
     greedy_run (1 # 2)
       (map (fun k => nth k (map corners boxes) []) (@argsort numpy_stable
                                                       (map Qopp scores)))
       [corners (Rect.rect 0 0 2 2)] (frame_tp f) (frame_fp f) left) /\
  (Permutation [1; 0; 1]%Z (stat_fp b) /\ Permutation [0; 1; 0]%Z (stat_tp b)).
Proof.
  cbv zeta.
  pose proof (@score_sorts_descending rect_shapely numpy_stable
                [Rect.rect 0 0 2 2; Rect.rect 5 5 6 6; Rect.rect 0 0 2 2]
                [1 # 2; 9 # 10; 1 # 2]
                [Rect.rect 0 0 2 2] (1 # 2)
                {| frame_fp := [1; 0; 1]%Z; frame_tp := [0; 1; 0]%Z;
                   frame_score := [9 # 10; 1 # 2; 1 # 2]; frame_gt := 1 |}
                {| stat_score := [1 # 2; 9 # 10; 1 # 2]; stat_tp := [1; 0; 0]%Z;
                   stat_fp := [0; 1; 1]%Z; stat_gt := 1 |}
                [1; 0; 1]%Z [0; 1; 0]%Z) as [Hm Hs].
  split.
  - destruct (Hm eq_refl) as (_ & Hd & Hf & left & Hrun).
    split; [rewrite Hf; exact Hd|]. exists left. exact Hrun.
  - destruct (Hs eq_refl) as (_ & _ & _ & _ & Hf & Ht). now split.
Defined.

(** ** C7: the invariant of the buckets *)

(** C7.  In a dictionary whose buckets have lists of one length and
    [tp[i] + fp[i] = 1] at every index (the buckets the caller creates
    empty, for one), every bucket is so again after any sequence of calls of
    [caluclate_tp_fp], whether a call returned or raised. *)
Theorem accumulate_invariant {shapely : Shapely} {numpy : Numpy}
    (rs : result_stat) (frames : list frame) :
  stat_inv rs -> stat_inv (run_frames rs frames).
Proof.
  unfold run_frames. revert rs.
  induction frames as [|fr frames IH]; intros rs Hrs; [exact Hrs|].
  cbn [fold_left]. apply IH. now apply call_inv.
Qed.

Lemma accumulate_invariant_witness :
  stat_inv (run_frames fresh_stat [frame_a; frame_b; frame_a]).
Proof.
  apply accumulate_invariant.
  unfold stat_inv, bucket_inv, fresh_stat. repeat constructor.
Defined.

(** ** C8: the counts of a frame *)

(** C8.  For every frame that [caluclate_tp_fp] gets through, the true
    positives are at most the frame's ground-truth boxes, true and false
    positives together are the frame's detections, and the bucket's
    ground-truth count grows by the number of ground-truth boxes of the
    frame, however many of them were matched. *)
Theorem frame_counts {shapely : Shapely} {numpy : Numpy}
    (fr : frame) (rs rs' : result_stat) :
  call rs fr = (rs', Ok tt) ->
  exists b f,
    lookup rs (iou_thresh fr) = Ok b /\
    matcher (det_boxes fr) (det_score fr) (gt_boxes fr) (iou_thresh fr) = Ok f /\
    lookup rs' (iou_thresh fr) = Ok (accumulate b f) /\
    (sumZ (frame_tp f) <= Z.of_nat (length (gt_boxes fr)))%Z /\
    (sumZ (frame_tp f) + sumZ (frame_fp f) = Z.of_nat (detections fr))%Z /\
    stat_gt (accumulate b f) = (stat_gt b + Z.of_nat (length (gt_boxes fr)))%Z.
Proof.
  unfold call, caluclate_tp_fp. intros H.
  destruct (matcher _ _ _ _) as [f|e] eqn:Hm; [|discriminate].
  destruct (lookup rs (iou_thresh fr)) as [b|e] eqn:Hl; [|discriminate].
  inversion H; subst; clear H.
  destruct (matcher_counts _ Hm) as (_ & _ & _ & Htp & Hsum & Hgt).
  exists b, f. repeat split; auto.
  - now apply lookup_update_same with b.
  - cbn. now rewrite Hgt.
Qed.

Lemma frame_counts_witness :
  exists b f,
    lookup fresh_stat (1 # 2) = Ok b /\
    matcher (det_boxes frame_a) (det_score frame_a) (gt_boxes frame_a) (1 # 2)
    = Ok f /\
    lookup (fst (call fresh_stat frame_a)) (1 # 2) = Ok (accumulate b f) /\
    (sumZ (frame_tp f) <= 2)%Z /\
    (sumZ (frame_tp f) + sumZ (frame_fp f) = 3)%Z /\
    stat_gt (accumulate b f) = (stat_gt b + 2)%Z.
Proof.
  apply (@frame_counts _ _ frame_a fresh_stat (fst (call fresh_stat frame_a))).
  vm_compute. reflexivity.
Defined.

(** ** C9: boxes and scores of different numbers *)




(** ** C10: frames without detections *)

(** C10.  For a frame without detections ([det_boxes] is [None]) and an
    existing bucket, [caluclate_tp_fp] returns; afterwards the bucket has
    the ['score'], ['tp'] and ['fp'] lists it had, and its ground-truth count
    has grown by the number of ground-truth boxes of the frame. *)
Theorem no_detections_frame {shapely : Shapely} {numpy : Numpy}
    (det_score : list Q) (gt_boxes : list box)
    (rs : result_stat) (iou_thresh : Q) (b : bucket) :
  lookup rs iou_thresh = Ok b ->
  exists rs',
    caluclate_tp_fp None det_score gt_boxes rs iou_thresh = (rs', Ok tt) /\
    lookup rs' iou_thresh
    = Ok {| stat_score := stat_score b;
            stat_tp := stat_tp b;
            stat_fp := stat_fp b;
            stat_gt := stat_gt b + Z.of_nat (length gt_boxes) |}.
Proof.
  intros Hl. unfold caluclate_tp_fp, matcher. rewrite Hl.
  eexists. split; [reflexivity|].
  rewrite (lookup_update_same _ _ _ Hl). unfold accumulate. cbn.
  now rewrite !app_nil_r.
Qed.

Lemma no_detections_frame_witness :
  exists rs',
    caluclate_tp_fp None [] [Rect.rect 0 0 1 1] fresh_stat (1 # 2) = (rs', Ok tt) /\
    lookup rs' (1 # 2)
    = Ok {| stat_score := []; stat_tp := []; stat_fp := []; stat_gt := 0 + 1 |}.
Proof.
  apply (@no_detections_frame _ _ [] [Rect.rect 0 0 1 1] fresh_stat (1 # 2)
           empty_bucket).
  reflexivity.
Defined.

(** * Further properties of the code *)

(** ** Accumulated statistics *)

(** X1.  In a dictionary whose buckets hold one score per label, label
    pairs that are (1, 0) or (0, 1), and no more true positives than their
    ground-truth count (empty buckets, for one), every bucket is so again
    after any sequence of calls of [caluclate_tp_fp]: over a whole run the
    true positives of a threshold never exceed the ground-truth boxes. *)
Theorem run_frames_ok {shapely : Shapely} {numpy : Numpy}
    (rs : result_stat) (frames : list frame) :
  stat_ok rs -> stat_ok (run_frames rs frames).
Proof.
  unfold run_frames. revert rs.
  induction frames as [|fr frames IH]; intros rs Hrs; [exact Hrs|].
  cbn [fold_left]. apply IH. now apply call_ok.
Qed.

Lemma run_frames_ok_witness :
  stat_ok (run_frames fresh_stat [frame_a; frame_b; frame_a]).
Proof.
  apply run_frames_ok.
  unfold stat_ok, bucket_ok, fresh_stat, empty_bucket, sumZ.
  repeat (constructor; cbn); lia.
Defined.

(** X2.  For a bucket as the accumulation builds it and with at least one
    ground-truth box, [calculate_ap] returns, with or without global
    sorting, and the average precision lies in [[0, 1]] (in exact
    arithmetic). *)
Theorem calculate_ap_in_unit {numpy : Numpy} (rs : result_stat) (iou : Q)
    (b : bucket) (global_sort_detections : bool) :
  lookup rs iou = Ok b ->
  bucket_ok b ->
  (0 < stat_gt b)%Z ->
  exists ap mrec mpre,
    snd (calculate_ap rs iou global_sort_detections) = Ok (ap, mrec, mpre) /\
    0 <= ap <= 1.
Proof.
  intros Hl Hok Hg. unfold calculate_ap. rewrite Hl.
  destruct (select_lists_flags global_sort_detections Hok)
    as (fp & tp & -> & Hflags & Hsum).
  cbn [snd]. apply curves_in_unit; auto.
  destruct Hok as (_ & _ & Hle). lia.
Qed.

Lemma calculate_ap_in_unit_witness :
  let rs := run_frames fresh_stat [frame_a; frame_b] in
  exists ap mrec mpre,
    snd (calculate_ap rs (1 # 2) true) = Ok (ap, mrec, mpre) /\ 0 <= ap <= 1.
Proof.
  cbv zeta.
  apply (@calculate_ap_in_unit numpy_stable
           (run_frames fresh_stat [frame_a; frame_b]) (1 # 2)
           {| stat_score := [9 # 10; 8 # 10; 7 # 10];
              stat_tp := [1; 1; 0]%Z; stat_fp := [0; 0; 1]%Z; stat_gt := 3 |}).
  - vm_compute. reflexivity.
  - unfold bucket_ok, flags, sumZ. cbn.
    repeat (constructor; cbn); lia.
  - cbn. lia.
Defined.

(** X3.  For a bucket with lists of one length whose accumulated scores
    descend strictly, the global sort changes nothing: [calculate_ap]
    returns the same with and without [global_sort_detections], however
    [np.argsort] treats equal keys. *)
Theorem global_sort_agrees {numpy : Numpy} (rs : result_stat) (iou : Q)
    (b : bucket) :
  lookup rs iou = Ok b ->
  length (stat_fp b) = length (stat_tp b) ->
  length (stat_tp b) = length (stat_score b) ->
  StronglySorted (fun x y => y < x) (stat_score b) ->
  snd (calculate_ap rs iou true) = snd (calculate_ap rs iou false).
Proof.
  intros Hl Hft Hts Hs. unfold calculate_ap. rewrite Hl.
  rewrite select_lists_sorted by assumption.
  rewrite (argsort_strictly_descending Hs).
  rewrite <- Hts at 2. rewrite <- Hts, <- Hft at 1.
  rewrite !at_indices_seq.
  unfold select_lists. rewrite Hft, Nat.eqb_refl. reflexivity.
Qed.

Lemma global_sort_agrees_witness :
  let rs := run_frames fresh_stat [frame_a] in
  snd (calculate_ap rs (1 # 2) true) = snd (calculate_ap rs (1 # 2) false).
Proof.
  cbv zeta.
  apply (@global_sort_agrees numpy_stable (run_frames fresh_stat [frame_a])
           (1 # 2)
           {| stat_score := [9 # 10; 8 # 10; 7 # 10];
              stat_tp := [1; 1; 0]%Z; stat_fp := [0; 0; 1]%Z; stat_gt := 2 |}).
  - vm_compute. reflexivity.
  - reflexivity.
  - reflexivity.
  - repeat constructor.
Defined.

(** ** Thresholds are independent *)

(** X4.  Both entry points touch no bucket but the one of the threshold
    they are called with: every other key looks up as before, and the keys
    of the dictionary stay as they are. *)
Theorem other_buckets_untouched {shapely : Shapely} {numpy : Numpy}
    (det_boxes : option (list box)) (det_score : list Q)
    (gt_boxes : list box) (rs : result_stat) (th k : Q) (gs : bool) :
  let rs1 := fst (caluclate_tp_fp det_boxes det_score gt_boxes rs th) in
  let rs2 := fst (calculate_ap rs th gs) in
  map fst rs1 = map fst rs /\ map fst rs2 = map fst rs /\
  (Qeq_bool k th = false ->
   lookup rs1 k = lookup rs k /\ lookup rs2 k = lookup rs k).
Proof.
  cbv zeta. split; [|split].
  - unfold caluclate_tp_fp.
    destruct (matcher _ _ _ _) as [f|e]; [|reflexivity].
    destruct (lookup rs th) as [b|e]; [|reflexivity].
    apply update_keys.
  - apply calculate_ap_keys.
  - intros Hne. split; [|now apply calculate_ap_other].
    unfold caluclate_tp_fp.
    destruct (matcher _ _ _ _) as [f|e]; [|reflexivity].
    destruct (lookup rs th) as [b|e]; [|reflexivity].
    now apply lookup_update_other.
Qed.

Lemma other_buckets_untouched_witness :
  let rs1 := fst (call fresh_stat frame_a) in
  let rs2 := fst (calculate_ap rs1 (1 # 2) false) in
  lookup rs1 (7 # 10) = Ok empty_bucket /\
  lookup rs2 (3 # 10) = lookup rs1 (3 # 10).
Proof.
  cbv zeta. split.
  - apply (@other_buckets_untouched rect_shapely numpy_stable
             (det_boxes frame_a) (det_score frame_a) (gt_boxes frame_a)
             fresh_stat (1 # 2) (7 # 10) false).
    reflexivity.
  - apply (@other_buckets_untouched rect_shapely numpy_stable
             None [] [] (fst (call fresh_stat frame_a)) (1 # 2) (3 # 10) false).
    reflexivity.
Defined.

(** ** Exceptions *)

(** X6.  [calculate_ap] raises nothing but [KeyError] (no bucket of that
    key), [AssertionError] (the bucket's lists differ in length) and
    [ZeroDivisionError]; in the first two cases the dictionary is as it
    was. *)
Theorem calculate_ap_raises {numpy : Numpy} (rs : result_stat) (iou : Q)
    (gs : bool) (e : exn) :
  snd (calculate_ap rs iou gs) = Raise e ->
  (e = KeyError /\ lookup rs iou = Raise KeyError /\
   fst (calculate_ap rs iou gs) = rs) \/
  (e = AssertionError /\ fst (calculate_ap rs iou gs) = rs /\
   exists b,
     lookup rs iou = Ok b /\
     ~ (length (stat_fp b) = length (stat_tp b) /\
        (gs = true -> length (stat_tp b) = length (stat_score b)))) \/
  (e = ZeroDivisionError /\
   exists b,
     lookup rs iou = Ok b /\ length (stat_fp b) = length (stat_tp b)).
Proof.
  unfold calculate_ap.
  destruct (lookup rs iou) as [b|e1] eqn:Hl.
  2:{ cbn. intros [= <-]. left. apply lookup_raise in Hl as Hk. now subst. }
  destruct (Nat.eq_dec (length (stat_fp b)) (length (stat_tp b))) as [Hft|Hft].
  - destruct gs.
    + destruct (Nat.eq_dec (length (stat_tp b)) (length (stat_score b)))
        as [Hts|Hts].
      * rewrite select_lists_sorted by assumption. cbn [snd].
        intros H. right. right. apply curves_raise in H.
        -- split; [exact H|]. now exists b.
        -- rewrite !cumsum_inplace_length. unfold at_indices.
           now rewrite !length_map.
      * unfold select_lists. rewrite Hft, Nat.eqb_refl.
        rewrite (proj2 (Nat.eqb_neq _ _) Hts). cbn.
        intros [= <-]. right. left. repeat split.
        exists b. split; [reflexivity|]. intros [_ H]. now apply Hts, H.
    + unfold select_lists. rewrite Hft, Nat.eqb_refl. cbn [snd].
      intros H. right. right. apply curves_raise in H.
      * split; [exact H|]. now exists b.
      * now rewrite !cumsum_inplace_length.
  - assert (Hsel : select_lists b gs = Raise AssertionError).
    { unfold select_lists. rewrite (proj2 (Nat.eqb_neq _ _) Hft).
      now destruct gs. }
    rewrite Hsel. cbn. intros [= <-]. right. left. repeat split.
    exists b. split; [reflexivity|]. now intros [H _].
Qed.

Lemma calculate_ap_raises_witness :
  let short := {| stat_score := [9 # 10]; stat_tp := [1%Z]; stat_fp := [];
                  stat_gt := 1 |} in
  fst (calculate_ap [(1 # 2, short)] (1 # 2) false) = [(1 # 2, short)] /\
  lookup [(1 # 2, short)] (3 # 10) = Raise KeyError.
Proof.
  cbv zeta. split.
  - destruct (@calculate_ap_raises numpy_stable
                [(1 # 2, {| stat_score := [9 # 10]; stat_tp := [1%Z];
                            stat_fp := []; stat_gt := 1 |})]
                (1 # 2) false AssertionError eq_refl)
      as [(H & _)|[(_ & H & _)|(H & _)]]; try discriminate. exact H.
  - destruct (@calculate_ap_raises numpy_stable
                [(1 # 2, {| stat_score := [9 # 10]; stat_tp := [1%Z];
                            stat_fp := []; stat_gt := 1 |})]
                (3 # 10) true KeyError eq_refl)
      as [(_ & H & _)|[(H & _)|(H & _)]]; try discriminate. exact H.
Defined.

(** ** The final report *)

(** X7.  [eval_final_results] evaluates the thresholds 0.3, 0.5 and 0.7
    independently: what it prints is what three calls of [calculate_ap] on
    the dictionary as passed return, with the ground-truth count of bucket
    0.3 as passed, and the exception it raises is the first of theirs.
    With global sorting the dictionary is left as it was; the keys stay in
    either case. *)
Theorem eval_final_results_independent {numpy : Numpy} (rs : result_stat)
    (gs : bool) :
  snd (eval_final_results rs gs)
  = report (snd (calculate_ap rs (3 # 10) gs))
           (snd (calculate_ap rs (1 # 2) gs))
           (snd (calculate_ap rs (7 # 10) gs))
           (lookup rs (3 # 10)) /\
  fst (eval_final_results rs true) = rs /\
  map fst (fst (eval_final_results rs gs)) = map fst rs.
Proof.
  split; [|split].
  - unfold eval_final_results, report.
    assert (K30 : lookup rs (30 # 100) = lookup rs (3 # 10))
      by (now apply lookup_Qeq).
    pose proof (calculate_ap_local rs rs (30 # 100) (3 # 10) gs K30) as H30.
    pose proof (fun k => @calculate_ap_other _ rs (30 # 100) k gs) as L1.
    pose proof (fun b r => @calculate_ap_keeps_gt _ rs (30 # 100) gs b r) as G1.
    assert (R1 : forall e, lookup rs (3 # 10) = Raise e ->
                           snd (calculate_ap rs (30 # 100) gs) = Raise e).
    { intros e He. unfold calculate_ap. now rewrite K30, He. }
    destruct (calculate_ap rs (30 # 100) gs) as [rs1 r30].
    cbn [fst snd] in *. rewrite <- H30. clear H30.
    destruct r30 as [[[ap_30 mrec_30] mpre_30]|e]; cbn [bind]; [|reflexivity].
    assert (H50 : snd (calculate_ap rs1 (50 # 100) gs)
                  = snd (calculate_ap rs (1 # 2) gs)).
    { apply calculate_ap_local. rewrite L1 by reflexivity.
      now apply lookup_Qeq. }
    pose proof (fun k => @calculate_ap_other _ rs1 (50 # 100) k gs) as L2.
    destruct (calculate_ap rs1 (50 # 100) gs) as [rs2 r50].
    cbn [fst snd] in *. rewrite <- H50. clear H50.
    destruct r50 as [[[ap_50 mrec_50] mpre_50]|e]; cbn [bind]; [|reflexivity].
    assert (H70 : snd (calculate_ap rs2 (70 # 100) gs)
                  = snd (calculate_ap rs (7 # 10) gs)).
    { apply calculate_ap_local.
      rewrite L2 by reflexivity. rewrite L1 by reflexivity.
      now apply lookup_Qeq. }
    pose proof (fun k => @calculate_ap_other _ rs2 (70 # 100) k gs) as L3.
    destruct (calculate_ap rs2 (70 # 100) gs) as [rs3 r70].
    cbn [fst snd] in *. rewrite <- H70. clear H70.
    destruct r70 as [[[ap_70 mrec_70] mpre_70]|e]; cbn [bind]; [|reflexivity].
    rewrite L3 by reflexivity. rewrite L2 by reflexivity.
    destruct (lookup rs (3 # 10)) as [b|e] eqn:Hl.
    + destruct (G1 b _ K30 eq_refl) as (b' & Hb' & Hgt).
      rewrite (lookup_Qeq rs1 (k := 3 # 10) (k' := 30 # 100)) by reflexivity.
      rewrite Hb'. cbn [bind]. now rewrite Hgt.
    + specialize (R1 e eq_refl). discriminate.
  - unfold eval_final_results.
    pose proof (calculate_ap_global_sort_keeps rs (30 # 100)) as H1.
    destruct (calculate_ap rs (30 # 100) true) as [rs1 r30]. cbn in H1. subst.
    destruct r30 as [[[ap_30 mrec_30] mpre_30]|e]; [|reflexivity].
    pose proof (calculate_ap_global_sort_keeps rs (50 # 100)) as H2.
    destruct (calculate_ap rs (50 # 100) true) as [rs2 r50]. cbn in H2. subst.
    destruct r50 as [[[ap_50 mrec_50] mpre_50]|e]; [|reflexivity].
    pose proof (calculate_ap_global_sort_keeps rs (70 # 100)) as H3.
    destruct (calculate_ap rs (70 # 100) true) as [rs3 r70]. cbn in H3. subst.
    destruct r70 as [[[ap_70 mrec_70] mpre_70]|e]; [|reflexivity].
    now destruct (lookup rs (3 # 10)).
  - unfold eval_final_results.
    pose proof (calculate_ap_keys rs (30 # 100) gs) as H1.
    destruct (calculate_ap rs (30 # 100) gs) as [rs1 r30]. cbn in H1.
    destruct r30 as [[[ap_30 mrec_30] mpre_30]|e]; [|exact H1].
    pose proof (calculate_ap_keys rs1 (50 # 100) gs) as H2.
    destruct (calculate_ap rs1 (50 # 100) gs) as [rs2 r50]. cbn in H2.
    destruct r50 as [[[ap_50 mrec_50] mpre_50]|e]; [|cbn; congruence].
    pose proof (calculate_ap_keys rs2 (70 # 100) gs) as H3.
    destruct (calculate_ap rs2 (70 # 100) gs) as [rs3 r70]. cbn in H3.
    destruct r70 as [[[ap_70 mrec_70] mpre_70]|e]; [|cbn; congruence].
    destruct (lookup rs3 (3 # 10)); cbn; congruence.
Qed.

(** ** Boxes *)

(** X8.  [convert_format] returns one polygon per box, in order, built
    from the x and y of the box's first four corners, when every box has
    four corners with two coordinates each, and raises [IndexError]
    otherwise. *)
Theorem convert_format_cases {shapely : Shapely} {numpy : Numpy}
    (boxes : list box) :
  convert_format boxes
  = if forallb well_shaped boxes
    then Ok (map (fun b => Polygon (corners b)) boxes)
    else Raise IndexError.
Proof.
  unfold convert_format.
  induction boxes as [|b boxes IH]; [reflexivity|].
  cbn [mapM forallb map]. rewrite box_2_polygon_cases.
  destruct (well_shaped b); [|reflexivity].
  cbn [bind andb]. rewrite IH.
  now destruct (forallb well_shaped boxes).
Qed.

(** X9.  Only the x and y of the first four corners of a box count: a call
    of [caluclate_tp_fp] on [(8, 3)] cuboids and the call on the [(4, 2)]
    arrays of those coordinates leave the same dictionary and the same
    outcome. *)
Theorem caluclate_tp_fp_footprint {shapely : Shapely} {numpy : Numpy}
    (det_boxes : option (list box)) (det_score : list Q)
    (gt_boxes : list box) (rs : result_stat) (th : Q) :
  caluclate_tp_fp (option_map (map footprint) det_boxes) det_score
    (map footprint gt_boxes) rs th
  = caluclate_tp_fp det_boxes det_score gt_boxes rs th.
Proof.
  unfold caluclate_tp_fp, matcher. rewrite length_map.
  destruct det_boxes as [det_boxes|]; [|reflexivity].
  cbn [option_map]. now rewrite !footprint_convert.
Qed.

(** ** The envelope of [voc_ap] *)

(** X10.  Whenever the precision list is at least as long as the recall
    list, [voc_ap] returns; the precision it returns descends along the
    curve and lies on or above the precision passed in (with its two
    sentinels), entry by entry. *)
Theorem voc_ap_envelope (rec prec : list Q) :
  (length rec <= length prec)%nat ->
  exists ap mpre,
    voc_ap rec prec = Ok (ap, 0 :: rec ++ [1], mpre) /\
    descending mpre /\
    Forall2 Qle (0 :: prec ++ [0]) mpre.
Proof.
  intros Hlen. pose proof (@voc_ap_eq rec prec Hlen) as Heq. cbv zeta in Heq.
  eexists. eexists. split; [exact Heq|].
  apply suffix_max_descending.
Qed.

Lemma voc_ap_envelope_witness :
  exists ap mpre,
    voc_ap [1 # 2] [1 # 4; 1 # 2; 1 # 3] = Ok (ap, [0; 1 # 2; 1], mpre) /\
    descending mpre /\
    Forall2 Qle [0; 1 # 4; 1 # 2; 1 # 3; 0] mpre.
Proof.
  apply (@voc_ap_envelope [1 # 2] [1 # 4; 1 # 2; 1 # 3]).
  simpl. lia.
Defined.

(** ** Drawing *)

(** X11.  [draw_bbox_in_pygame] draws, box after box, the twelve edges of
    every entry that is a box of at least eight corners, between the
    corners cast to integers, and nothing for [None], for an empty list,
    for [None] entries and for shorter boxes: twelve calls of
    [pygame.draw.line] for each drawable entry. *)
Theorem draw_bbox_edges {pygame : Pygame} (s : surface)
    (boxes : option (list (option box))) (color : Z * Z * Z) (thickness : Z) :
  draw_bbox_in_pygame s boxes color thickness
  = draw_segments color thickness s (segments (entries boxes)) /\
  length (segments (entries boxes))
  = (12 * length (filter drawable (entries boxes)))%nat.
Proof.
  split; [apply draw_bbox_segments|apply segments_length].
Qed.

(** X12.  Entries that are [None] or boxes of fewer than eight corners can
    be dropped from [boxes] without changing what is drawn, and drawing a
    list is drawing its front part and then, on the surface this leaves, the
    rest; a call that fails ends the drawing. *)
Theorem draw_bbox_compose {pygame : Pygame} (s : surface)
    (l l1 l2 : list (option box)) (color : Z * Z * Z) (thickness : Z) :
  draw_bbox_in_pygame s (Some l) color thickness
  = draw_bbox_in_pygame s (Some (filter drawable l)) color thickness /\
  draw_bbox_in_pygame s (Some (l1 ++ l2)) color thickness
  = and_then (draw_bbox_in_pygame s (Some l1) color thickness)
             (fun s => draw_bbox_in_pygame s (Some l2) color thickness).
Proof.
  rewrite !draw_bbox_segments. cbn [entries]. split.
  - now rewrite segments_filter.
  - unfold segments. rewrite flat_map_app, draw_segments_app.
    destruct (draw_segments color thickness s (flat_map entry_segments l1));
      cbn [and_then]; [|reflexivity].
    now rewrite draw_bbox_segments.
Qed.

(** ** Accumulation only appends *)

(** X14.  Over any sequence of calls of [caluclate_tp_fp] a bucket stays
    in the dictionary, the scores and labels it held stay where they were,
    at the front of its lists, and its ground-truth count does not
    decrease. *)
Theorem run_frames_extends {shapely : Shapely} {numpy : Numpy}
    (rs : result_stat) (frames : list frame) (k : Q) (b : bucket) :
  lookup rs k = Ok b ->
  exists b', lookup (run_frames rs frames) k = Ok b' /\ extends b b'.
Proof.
  unfold run_frames. revert rs b.
  induction frames as [|fr frames IH]; intros rs b Hl; cbn [fold_left].
  - exists b. split; [exact Hl|apply extends_refl].
  - destruct (call_extends rs fr k Hl) as (b1 & Hl1 & He1).
    destruct (IH _ _ Hl1) as (b' & Hl' & He').
    exists b'. split; [exact Hl'|]. now apply extends_trans with b1.
Qed.

Lemma run_frames_extends_witness :
  exists b',
    lookup (run_frames fresh_stat [frame_a; frame_b; frame_a]) (1 # 2) = Ok b' /\
    extends empty_bucket b'.
Proof.
  apply (@run_frames_extends rect_shapely numpy_stable fresh_stat
           [frame_a; frame_b; frame_a] (1 # 2) empty_bucket).
  reflexivity.
Defined.

(** ** Curves at the edges *)

(** X15.  Without global sorting, a call of [calculate_ap] that passes
    its assertion leaves in the bucket, in place of every ['tp'] and ['fp']
    entry, the sum of the entries up to it; scores and ground-truth count
    stay. *)
Theorem calculate_ap_leaves_sums {numpy : Numpy} (rs : result_stat) (iou : Q)
    (b : bucket) :
  lookup rs iou = Ok b ->
  length (stat_fp b) = length (stat_tp b) ->
  exists b',
    lookup (fst (calculate_ap rs iou false)) iou = Ok b' /\
    stat_score b' = stat_score b /\ stat_gt b' = stat_gt b /\
    length (stat_tp b') = length (stat_tp b) /\
    length (stat_fp b') = length (stat_fp b) /\
    forall i,
      (i < length (stat_tp b))%nat ->
      nth i (stat_tp b') 0%Z = sumZ (firstn (S i) (stat_tp b)) /\
      nth i (stat_fp b') 0%Z = sumZ (firstn (S i) (stat_fp b)).
Proof.
  intros Hl Hft. rewrite (calculate_ap_in_place rs iou Hl Hft).
  eexists. split; [reflexivity|]. cbn. unfold running_sums.
  rewrite !sums_from_length. repeat split; auto.
  - rewrite sums_from_nth by lia. apply Z.add_0_l.
  - rewrite sums_from_nth by lia. apply Z.add_0_l.
Qed.

Lemma calculate_ap_leaves_sums_witness :
  let b := {| stat_score := [9 # 10; 8 # 10; 7 # 10]; stat_tp := [1; 0; 1]%Z;
              stat_fp := [0; 1; 0]%Z; stat_gt := 2 |} in
  exists b',
    lookup (fst (calculate_ap [(1 # 2, b)] (1 # 2) false)) (1 # 2) = Ok b' /\
    nth 2 (stat_tp b') 0%Z = 2%Z /\ nth 2 (stat_fp b') 0%Z = 1%Z.
Proof.
  cbv zeta.
  destruct (@calculate_ap_leaves_sums numpy_stable
              [(1 # 2, {| stat_score := [9 # 10; 8 # 10; 7 # 10];
                          stat_tp := [1; 0; 1]%Z; stat_fp := [0; 1; 0]%Z;
                          stat_gt := 2 |})] (1 # 2) _ eq_refl eq_refl)
    as (b' & Hl & _ & _ & _ & _ & Hn).
  exists b'. split; [exact Hl|].
  apply (Hn 2%nat). simpl. lia.
Defined.

(** X16.  For a bucket as the accumulation builds it, with ground truth
    and without a true positive, [calculate_ap] returns an average precision
    of zero. *)
Theorem no_true_positive_ap {numpy : Numpy} (rs : result_stat) (iou : Q)
    (b : bucket) (gs : bool) :
  lookup rs iou = Ok b ->
  bucket_ok b ->
  (0 < stat_gt b)%Z ->
  sumZ (stat_tp b) = 0%Z ->
  exists ap mrec mpre,
    snd (calculate_ap rs iou gs) = Ok (ap, mrec, mpre) /\ ap == 0.
Proof.
  intros Hl Hok Hg Hz. unfold calculate_ap. rewrite Hl.
  destruct (select_lists_sums gs Hok) as (fp & tp & -> & Hflags & Ht & _).
  cbn [snd]. destruct (curves_of_flags Hflags Hg) as [-> Hlen].
  apply voc_ap_zero_precision; [lia|].
  destruct (sums_from_sorted (flags_nonneg Hflags) 0) as [_ Hbound].
  unfold precisions. apply Forall_map, Forall_forall.
  intros [T F] Hin. apply in_combine_l in Hin.
  pose proof (proj1 (Forall_forall _ _) Hbound _ Hin) as HT. cbv beta in HT.
  assert (T = 0%Z) by lia. subst T.
  unfold float, Qdiv. apply Qmult_0_l.
Qed.

Lemma no_true_positive_ap_witness :
  let b := {| stat_score := [9 # 10; 8 # 10]; stat_tp := [0; 0]%Z;
              stat_fp := [1; 1]%Z; stat_gt := 3 |} in
  exists ap mrec mpre,
    snd (calculate_ap [(1 # 2, b)] (1 # 2) true) = Ok (ap, mrec, mpre) /\
    ap == 0.
Proof.
  cbv zeta.
  apply (@no_true_positive_ap numpy_stable
           [(1 # 2, {| stat_score := [9 # 10; 8 # 10]; stat_tp := [0; 0]%Z;
                       stat_fp := [1; 1]%Z; stat_gt := 3 |})] (1 # 2) _ true
           eq_refl).
  - unfold bucket_ok, flags, sumZ. cbn. repeat (constructor; cbn); lia.
  - cbn. lia.
  - reflexivity.
Defined.

(** X17.  For a bucket as the accumulation builds it, with ground truth
    and without a false positive, [calculate_ap] returns as average
    precision the recall reached, true positives over ground-truth count
    (1.0 when every ground-truth box was matched). *)
Theorem no_false_positive_ap {numpy : Numpy} (rs : result_stat) (iou : Q)
    (b : bucket) (gs : bool) :
  lookup rs iou = Ok b ->
  bucket_ok b ->
  (0 < stat_gt b)%Z ->
  sumZ (stat_fp b) = 0%Z ->
  exists ap mrec mpre,
    snd (calculate_ap rs iou gs) = Ok (ap, mrec, mpre) /\
    ap == float (sumZ (stat_tp b)) / float (stat_gt b).
Proof.
  intros Hl Hok Hg Hz. unfold calculate_ap. rewrite Hl.
  destruct (select_lists_sums gs Hok) as (fp & tp & -> & Hflags & Ht & Hf).
  cbn [snd]. destruct (curves_of_flags Hflags Hg) as [-> Hlen].
  destruct (@voc_ap_unit_precision
              (recalls (sums_from 0 tp) (stat_gt b))
              (precisions (sums_from 0 fp) (sums_from 0 tp)) Hlen)
    as (ap & mrec & mpre & Hv & Hap).
  - destruct (sums_from_sorted (flags_fp_nonneg Hflags) 0) as [_ Hbound].
    pose proof (sums_from_flags Hflags 0 0) as Hcum.
    unfold precisions. apply Forall_map, Forall_forall.
    intros [T F] Hin.
    pose proof (proj1 (Forall_forall _ _) Hcum _ Hin) as HT. cbn in HT.
    apply in_combine_r in Hin.
    pose proof (proj1 (Forall_forall _ _) Hbound _ Hin) as HF. cbv beta in HF.
    assert (F = 0%Z) by lia. subst F. cbn [Z.add].
    unfold float, Qdiv. apply Qmult_inv_r.
    intros E. unfold Qeq in E. simpl in E. lia.
  - exists ap, mrec, mpre. split; [exact Hv|].
    rewrite Hap, final_recall, Ht. reflexivity.
Qed.

Lemma no_false_positive_ap_witness :
  let b := {| stat_score := [9 # 10; 8 # 10]; stat_tp := [1; 1]%Z;
              stat_fp := [0; 0]%Z; stat_gt := 2 |} in
  exists ap mrec mpre,
    snd (calculate_ap [(1 # 2, b)] (1 # 2) false) = Ok (ap, mrec, mpre) /\
    ap == float 2 / float 2.
Proof.
  cbv zeta.
  apply (@no_false_positive_ap numpy_stable
           [(1 # 2, {| stat_score := [9 # 10; 8 # 10]; stat_tp := [1; 1]%Z;
                       stat_fp := [0; 0]%Z; stat_gt := 2 |})] (1 # 2) _ false
           eq_refl).
  - unfold bucket_ok, flags, sumZ. cbn. repeat (constructor; cbn); lia.
  - cbn. lia.
  - reflexivity.
Defined.
